(** * Quotation PDF resolution and regeneration

    A shallow embedding of the quotation-PDF endpoint of the backend
    ([handleQuotationPDF], [quotationPDFInterceptor] and the older
    [app.get('/api/uploads/quotations/:filename')] route), together with the
    platform pieces the handler relies on: regular expressions (the JavaScript
    literals used by [String.prototype.match] and the pattern handed to the
    database's [$regex] operator), the two collections, and the file system.

    Strings of the program are [string]; the regular-expression engine works
    on their character lists. *)

From Stdlib Require Import ZArith Lia Bool List Ascii String.
From stdpp Require Import base gmap strings list.
Import ListNotations.
Local Open Scope Z_scope.

(** ** Characters and strings *)

Definition s2l (s : string) : list ascii := list_ascii_of_string s.
Definition l2s (l : list ascii) : string := string_of_list_ascii l.

Definition is_digit (c : ascii) : bool :=
  (48 <=? nat_of_ascii c)%nat && (nat_of_ascii c <=? 57)%nat.
Definition is_upper (c : ascii) : bool :=
  (65 <=? nat_of_ascii c)%nat && (nat_of_ascii c <=? 90)%nat.
Definition is_lower (c : ascii) : bool :=
  (97 <=? nat_of_ascii c)%nat && (nat_of_ascii c <=? 122)%nat.
Definition is_alnum (c : ascii) : bool := is_digit c || is_upper c || is_lower c.
Definition is_space (c : ascii) : bool :=
  existsb (Nat.eqb (nat_of_ascii c)) [9; 10; 11; 12; 13; 32]%nat.

(** ASCII case folding, as the [i] option does on the bytes of a name. *)
Definition to_lower (c : ascii) : ascii :=
  if is_upper c then ascii_of_nat (nat_of_ascii c + 32) else c.
Definition to_upper (c : ascii) : ascii :=
  if is_lower c then ascii_of_nat (nat_of_ascii c - 32) else c.
Definition eqb_ci (a b : ascii) : bool := Ascii.eqb (to_lower a) (to_lower b).

(** [parseInt] on a run of decimal digits. *)
Definition digit_val (c : ascii) : Z := Z.of_nat (nat_of_ascii c) - 48.
Definition parseInt (ds : list ascii) : Z :=
  fold_left (fun acc d => 10 * acc + digit_val d) ds 0.

(** ** Regular expressions *)

Module Regex.

(** Character sets: a literal, [.], the class escapes, and bracket classes. *)
Inductive cset : Type :=
| CLit (c : ascii)
| CAny
| CDigit
| CWord
| CSpace
| CRange (lo hi : ascii)
| CUnion (a b : cset)
| CNeg (a : cset)
| CNone.

Inductive regex : Type :=
| REmpty
| RChar (cs : cset)
| RSeq (r1 r2 : regex)
| RAlt (r1 r2 : regex)
| RStar (r : regex)
| RGroup (i : nat) (r : regex)
| RBol
| REol.

Definition in_range (lo hi c : ascii) : bool :=
  (nat_of_ascii lo <=? nat_of_ascii c)%nat && (nat_of_ascii c <=? nat_of_ascii hi)%nat.

(** Membership of a character in a set; [ci] is the case-insensitive option. *)
Fixpoint cset_mem (ci : bool) (cs : cset) (c : ascii) : bool :=
  match cs with
  | CLit a => if ci then eqb_ci a c else Ascii.eqb a c
  | CAny => negb (Ascii.eqb c "010")
  | CDigit => is_digit c
  | CWord => is_alnum c || Ascii.eqb c "_"
  | CSpace => is_space c
  | CRange lo hi =>
      in_range lo hi c
      || (ci && (in_range lo hi (to_lower c) || in_range lo hi (to_upper c)))
  | CUnion a b => cset_mem ci a c || cset_mem ci b c
  | CNeg a => negb (cset_mem ci a c)
  | CNone => false
  end.

(** Captures: group number and captured text, most recent binding first. *)
Definition caps : Type := list (nat * list ascii).

Fixpoint cap (i : nat) (cp : caps) : option (list ascii) :=
  match cp with
  | [] => None
  | (j, t) :: cp' => if Nat.eqb i j then Some t else cap i cp'
  end.

(** The loop of a greedy star: iterate [body] while it consumes input, and
    fall back to the continuation [k]; [fuel] bounds the iterations by the
    length of the input, which every iteration shortens. *)
Fixpoint star_loop
    (body : list ascii -> caps -> (list ascii -> caps -> option caps) -> option caps)
    (k : list ascii -> caps -> option caps)
    (fuel : nat) (s : list ascii) (cp : caps) {struct fuel} : option caps :=
  match fuel with
  | O => k s cp
  | S fuel' =>
      match body s cp
              (fun s' cp' =>
                 if (length s' <? length s)%nat then star_loop body k fuel' s' cp'
                 else None) with
      | Some x => Some x
      | None => k s cp
      end
  end.

(** Backtracking matcher in continuation-passing style.  [n0] is the length
    of the whole subject (for [^]); quantifiers are greedy; an iteration of a
    star that consumes nothing is cut, as regular-expression engines do. *)
Fixpoint rmatch (ci : bool) (n0 : nat) (r : regex) (s : list ascii) (cp : caps)
    (k : list ascii -> caps -> option caps) {struct r} : option caps :=
  match r with
  | REmpty => k s cp
  | RChar cs =>
      match s with
      | c :: s' => if cset_mem ci cs c then k s' cp else None
      | [] => None
      end
  | RSeq r1 r2 => rmatch ci n0 r1 s cp (fun s' cp' => rmatch ci n0 r2 s' cp' k)
  | RAlt r1 r2 =>
      match rmatch ci n0 r1 s cp k with
      | Some x => Some x
      | None => rmatch ci n0 r2 s cp k
      end
  | RStar r1 => star_loop (rmatch ci n0 r1) k (length s) s cp
  | RGroup i r1 =>
      rmatch ci n0 r1 s cp
        (fun s' cp' => k s' ((i, firstn (length s - length s') s) :: cp'))
  | RBol => if (length s =? n0)%nat then k s cp else None
  | REol => match s with [] => k s cp | _ :: _ => None end
  end.

Definition rmatch_here (ci : bool) (n0 : nat) (r : regex) (s : list ascii) : option caps :=
  rmatch ci n0 r s [] (fun _ cp => Some cp).

(** Leftmost match anywhere in the subject. *)
Fixpoint rsearch_from (ci : bool) (n0 : nat) (r : regex) (s : list ascii) : option caps :=
  match rmatch_here ci n0 r s with
  | Some cp => Some cp
  | None =>
      match s with
      | [] => None
      | _ :: s' => rsearch_from ci n0 r s'
      end
  end.

Definition rsearch (ci : bool) (r : regex) (s : list ascii) : option caps :=
  rsearch_from ci (length s) r s.

(** *** Pattern syntax *)

Definition RPlus (r : regex) : regex := RSeq r (RStar r).
Definition ROpt (r : regex) : regex := RAlt r REmpty.

Fixpoint rep_exact (n : nat) (r : regex) : regex :=
  match n with O => REmpty | S n' => RSeq r (rep_exact n' r) end.
Fixpoint rep_upto (n : nat) (r : regex) : regex :=
  match n with O => REmpty | S n' => ROpt (RSeq r (rep_upto n' r)) end.

(** A maximal run of digits and the rest. *)
Fixpoint span_digits (p : list ascii) : list ascii * list ascii :=
  match p with
  | c :: p' =>
      if is_digit c then let '(ds, rest) := span_digits p' in (c :: ds, rest)
      else ([], p)
  | [] => ([], [])
  end.

(** The body of a brace quantifier after the opening brace:
    [n}], [n,}] or [n,m}]. *)
Definition parse_brace (r : regex) (p : list ascii) : option (regex * list ascii) :=
  match span_digits p with
  | ([], _) => None
  | (ds, "}"%char :: rest) => Some (rep_exact (Z.to_nat (parseInt ds)) r, rest)
  | (ds, ","%char :: "}"%char :: rest) =>
      Some (RSeq (rep_exact (Z.to_nat (parseInt ds)) r) (RStar r), rest)
  | (ds, ","%char :: p1) =>
      match span_digits p1 with
      | ([], _) => None
      | (es, "}"%char :: rest) =>
          let n := Z.to_nat (parseInt ds) in
          let m := Z.to_nat (parseInt es) in
          if (n <=? m)%nat then Some (RSeq (rep_exact n r) (rep_upto (m - n) r), rest)
          else None
      | _ => None
      end
  | _ => None
  end.

(** An optional quantifier after an atom; a brace that does not open a
    well-formed quantifier is left in place and read as a literal. *)
Definition parse_quant (r : regex) (p : list ascii) : regex * list ascii :=
  match p with
  | "*"%char :: p' => (RStar r, p')
  | "+"%char :: p' => (RPlus r, p')
  | "?"%char :: p' => (ROpt r, p')
  | "{"%char :: p' =>
      match parse_brace r p' with
      | Some (rq, rest) => (rq, rest)
      | None => (r, p)
      end
  | _ => (r, p)
  end.

(** A backslash escape: class escapes for [d], [w], [s] and their
    complements; a backslash before a character that is not alphanumeric
    makes it a literal; other alphanumeric escapes are not supported. *)
Definition parse_escape (c : ascii) : option cset :=
  if Ascii.eqb c "d" then Some CDigit
  else if Ascii.eqb c "D" then Some (CNeg CDigit)
  else if Ascii.eqb c "w" then Some CWord
  else if Ascii.eqb c "W" then Some (CNeg CWord)
  else if Ascii.eqb c "s" then Some CSpace
  else if Ascii.eqb c "S" then Some (CNeg CSpace)
  else if is_alnum c then None
  else Some (CLit c).

(** The items of a bracket class up to the closing bracket. *)
Fixpoint parse_class_items (fuel : nat) (p : list ascii) (acc : cset)
    : option (cset * list ascii) :=
  match fuel with
  | O => None
  | S fuel' =>
      match p with
      | [] => None
      | "]"%char :: rest => Some (acc, rest)
      | "\"%char :: c :: rest =>
          match parse_escape c with
          | Some cs => parse_class_items fuel' rest (CUnion acc cs)
          | None => None
          end
      | lo :: "-"%char :: hi :: rest =>
          if Ascii.eqb hi "]"
          then parse_class_items fuel' ("-"%char :: hi :: rest) (CUnion acc (CLit lo))
          else parse_class_items fuel' rest (CUnion acc (CRange lo hi))
      | c :: rest => parse_class_items fuel' rest (CUnion acc (CLit c))
      end
  end.

Definition parse_class (p : list ascii) : option (cset * list ascii) :=
  match p with
  | "^"%char :: p' =>
      match parse_class_items (S (length p')) p' CNone with
      | Some (cs, rest) => Some (CNeg cs, rest)
      | None => None
      end
  | _ => parse_class_items (S (length p)) p CNone
  end.

(** Characters with a meaning of their own outside a bracket class. *)
Definition is_meta (c : ascii) : bool :=
  existsb (Ascii.eqb c) (s2l "\^$.[|()?*+{").

(** Recursive-descent parser.  [g] is the number of capture groups opened so
    far; groups are numbered by their opening parenthesis. *)
Fixpoint parse_alt (fuel : nat) (g : nat) (p : list ascii) {struct fuel}
    : option (regex * nat * list ascii) :=
  match fuel with
  | O => None
  | S fuel' =>
      match parse_seq fuel' g p with
      | Some (r1, g1, "|"%char :: p1) =>
          match parse_alt fuel' g1 p1 with
          | Some (r2, g2, p2) => Some (RAlt r1 r2, g2, p2)
          | None => None
          end
      | other => other
      end
  end
with parse_seq (fuel : nat) (g : nat) (p : list ascii) {struct fuel}
    : option (regex * nat * list ascii) :=
  match fuel with
  | O => None
  | S fuel' =>
      match p with
      | [] => Some (REmpty, g, p)
      | c :: _ =>
          if Ascii.eqb c "|" || Ascii.eqb c ")" then Some (REmpty, g, p)
          else
            match parse_atom fuel' g p with
            | Some (a, g1, p1) =>
                let '(aq, p2) := parse_quant a p1 in
                match parse_seq fuel' g1 p2 with
                | Some (r, g2, p3) => Some (RSeq aq r, g2, p3)
                | None => None
                end
            | None => None
            end
      end
  end
with parse_atom (fuel : nat) (g : nat) (p : list ascii) {struct fuel}
    : option (regex * nat * list ascii) :=
  match fuel with
  | O => None
  | S fuel' =>
      match p with
      | [] => None
      | c :: p1 =>
          if Ascii.eqb c "(" then
            match parse_alt fuel' (S g) p1 with
            | Some (r, g1, ")"%char :: p2) => Some (RGroup (S g) r, g1, p2)
            | _ => None
            end
          else if Ascii.eqb c "[" then
            match parse_class p1 with
            | Some (cs, p2) => Some (RChar cs, g, p2)
            | None => None
            end
          else if Ascii.eqb c "." then Some (RChar CAny, g, p1)
          else if Ascii.eqb c "^" then Some (RBol, g, p1)
          else if Ascii.eqb c "$" then Some (REol, g, p1)
          else if Ascii.eqb c "\" then
            match p1 with
            | e :: p2 =>
                match parse_escape e with
                | Some cs => Some (RChar cs, g, p2)
                | None => None
                end
            | [] => None
            end
          else if Ascii.eqb c "{" then Some (RChar (CLit c), g, p1)
          else if is_meta c then None
          else Some (RChar (CLit c), g, p1)
      end
  end.

(** Compile a pattern; [None] when it is malformed or outside the subset. *)
Definition compile (p : list ascii) : option regex :=
  match parse_alt (2 * length p + 2) 0 p with
  | Some (r, _, []) => Some r
  | _ => None
  end.

(** [new RegExp(p).test(s)] / the database's [$regex] with options. *)
Definition regex_test (ci : bool) (p s : list ascii) : option bool :=
  match compile p with
  | Some r => Some (bool_decide (is_Some (rsearch ci r s)))
  | None => None
  end.

End Regex.

Import Regex.

(** ** The escaping applied to the inbound filename

    [filename.replace(/[.*+?^${}()|[\]\\]/g, '\\$&')]: every character of the
    bracket class is prefixed with a backslash. *)

Definition is_special (c : ascii) : bool :=
  existsb (Ascii.eqb c) (s2l ".*+?^${}()|[]\").

Fixpoint escapeRegExp (s : list ascii) : list ascii :=
  match s with
  | [] => []
  | c :: s' =>
      if is_special c then "\"%char :: c :: escapeRegExp s' else c :: escapeRegExp s'
  end.

(** Literal, case-insensitive substring search: what the fuzzy strategy is
    meant to compute. *)
Fixpoint prefix_ci (p s : list ascii) : bool :=
  match p, s with
  | [], _ => true
  | a :: p', c :: s' => eqb_ci a c && prefix_ci p' s'
  | _ :: _, [] => false
  end.

Fixpoint substring_ci (p s : list ascii) : bool :=
  prefix_ci p s || match s with [] => false | _ :: s' => substring_ci p s' end.

(** The regular expression of a literal text. *)
Fixpoint lits (p : list ascii) (r : regex) : regex :=
  match p with
  | [] => r
  | c :: p' => RSeq (RChar (CLit c)) (lits p' r)
  end.

(** The three regular-expression literals of the handler. *)
Definition re_inquiry : regex :=
  Eval vm_compute in default REmpty (compile (s2l "quotation_(INQ\d+)_(\d+)\.pdf")).
Definition re_timestamp : regex :=
  Eval vm_compute in default REmpty (compile (s2l "quotation-(\d+)-")).
Definition re_generated : regex :=
  Eval vm_compute in default REmpty (compile (s2l "quotation_[^_]+_(\d+)\.pdf")).

(** [str.match(re)] without the global flag: the leftmost match and its
    captures, or null. *)
Definition js_match (re : regex) (str : string) : option caps :=
  rsearch false re (s2l str).


(** ** Data model (models/Quotation.js, models/Inquiry.js) *)

Inductive QuotationStatus : Type :=
| draft | created | uploaded | sent | accepted | rejected | order_created.

(** An entry of [items]; the fields the handler reads. *)
Record Item : Type := mkItem {
  item_partRef : option string;
  item_material : option string;
  item_thickness : option string;
  item_quantity : option Z;
  item_unitPrice : option Z;
  item_remark : option string
}.

(** An entry of an inquiry's [parts]. *)
Record Part : Type := mkPart {
  part_partRef : option string;
  part_material : option string;
  part_thickness : option string;
  part_quantity : option Z;
  part_remarks : option string
}.

(** A Quotation document.  [inquiryId] is a String in the schema: it holds
    either an inquiry's identifier or its inquiry number.  Dates are
    milliseconds since the epoch. *)
Record Quotation : Type := mkQuotation {
  q_id : string;
  inquiryId : string;
  totalAmount : Z;
  items : list Item;
  quotationPdf : option string;
  status : QuotationStatus;
  validUntil : option Z;
  terms : option string;
  createdAt : Z
}.

Record Inquiry : Type := mkInquiry {
  i_id : string;
  inquiryNumber : string;
  parts : list Part
}.

Definition set_quotationPdf (name : string) (q : Quotation) : Quotation :=
  {| q_id := q_id q; inquiryId := inquiryId q; totalAmount := totalAmount q;
     items := items q; quotationPdf := Some name; status := status q;
     validUntil := validUntil q; terms := terms q; createdAt := createdAt q |}.

(** The rows handed to the PDF service. *)
Record PdfPart : Type := mkPdfPart {
  partRef : string;
  material : string;
  thickness : string;
  quantity : Z;
  price : Z;
  remarks : string
}.

Record PdfQuotationData : Type := mkPdfQuotationData {
  pd_parts : list PdfPart;
  pd_totalAmount : Z;
  pd_currency : string;
  pd_validUntil : Z;
  pd_terms : string
}.

(** What [pdfService.generateQuotationPDF] resolves to. *)
Record PdfResult : Type := mkPdfResult {
  fileName : string;
  filePath : string
}.

(** ** Responses *)

Inductive JVal : Type :=
| JBool (b : bool)
| JStr (s : string).

(** [SendFile d n p]: status 200, [Content-Type: application/pdf],
    [Content-Disposition: d; filename=n], body streamed from path [p].
    [Json st body]: [res.status(st).json(body)]; the optional [stack] member
    of the error bodies is left out. *)
Inductive Response : Type :=
| SendFile (disposition name path : string)
| Json (st : Z) (body : list (string * JVal)).

(** ** The world a request runs in *)

Inductive Strategy : Type :=
| SExact | SFuzzy | SInquiry | STimestamp | SGenerated.

(** Observable steps of a request: entering a locator strategy, invoking the
    PDF service, saving a Quotation document. *)
Inductive Event : Type :=
| EvTry (s : Strategy)
| EvGenerate (inquiry : string)
| EvSave (quotation : string).

Record World : Type := mkWorld {
  files : gset string;
  quotations : list Quotation;
  inquiries : list Inquiry;
  now : Z;
  log : list Event
}.

Inductive Result (A : Type) : Type :=
| Ok (a : A)
| Threw (msg : string).
Arguments Ok {A} a.
Arguments Threw {A} msg.

(** Code of an [async] function with a [try]: state is threaded, a rejected
    [await] skips the rest and keeps the effects made so far. *)
Definition Handler (A : Type) : Type := World -> Result A * World.

Definition ret {A : Type} (a : A) : Handler A := fun w => (Ok a, w).

Definition bind {A B : Type} (m : Handler A) (f : A -> Handler B) : Handler B :=
  fun w =>
    match m w with
    | (Ok a, w') => f a w'
    | (Threw e, w') => (Threw e, w')
    end.

Notation "x <- m ;; k" := (bind m (fun x => k))
  (at level 100, m at next level, right associativity).
Notation "m ;;; k" := (bind m (fun _ => k))
  (at level 100, right associativity).

Definition add_log (evs : list Event) (w : World) : World :=
  {| files := files w; quotations := quotations w; inquiries := inquiries w;
     now := now w; log := log w ++ evs |}.

Definition set_files (fs : gset string) (w : World) : World :=
  {| files := fs; quotations := quotations w; inquiries := inquiries w;
     now := now w; log := log w |}.

Definition set_quotations (qs : list Quotation) (w : World) : World :=
  {| files := files w; quotations := qs; inquiries := inquiries w;
     now := now w; log := log w |}.

Definition tell (e : Event) : Handler unit := fun w => (Ok tt, add_log [e] w).

(** An awaited query: it reads the world and may reject. *)
Definition query {A : Type} (f : World -> Result A) : Handler A := fun w => (f w, w).

Definition existsSync (w : World) (path : string) : bool := bool_decide (path ∈ files w).

(** [path.join(__dirname, 'uploads', 'quotations', filename)], relative to
    the server directory. *)
Definition quotationPath (filename : string) : string :=
  "uploads/quotations/" +:+ filename.

(** ** Queries *)

(** [Model.findOne(filter)]: the first matching document in natural order. *)
Definition findOne {A : Type} (p : A -> bool) (coll : list A) : option A := List.find p coll.

(** [.sort({ createdAt: -1 })] then the first document: a most recently
    created one. *)
Fixpoint latest (l : list Quotation) : option Quotation :=
  match l with
  | [] => None
  | q :: l' =>
      match latest l' with
      | None => Some q
      | Some m => if createdAt q <? createdAt m then Some m else Some q
      end
  end.

(** [{ quotationPdf: { $regex: pattern, $options: 'i' } }] on one document. *)
Definition regex_field (r : regex) (field : option string) : bool :=
  match field with
  | Some v => bool_decide (is_Some (rsearch true r (s2l v)))
  | None => false
  end.

(** [new Date(t)] is a valid date only within 8.64e15 ms of the epoch; a
    query whose bound is an invalid date is rejected by the schema cast.
    Every timestamp whose window passes this test is below 2^53, so the
    integer arithmetic here is the arithmetic of the program's numbers. *)
Definition MAX_DATE : Z := 8640000000000000.
Definition valid_date (t : Z) : bool := Z.abs t <=? MAX_DATE.

Definition in_window (gte lte : Z) (q : Quotation) : bool :=
  (gte <=? createdAt q) && (createdAt q <=? lte).

(** [Quotation.findOne({ createdAt: { $gte, $lte } }).sort({ createdAt: -1 })] *)
Definition findLatestCreatedBetween (gte lte : Z) (w : World) : Result (option Quotation) :=
  if valid_date gte && valid_date lte
  then Ok (latest (filter (in_window gte lte) (quotations w)))
  else Threw "Cast to date failed for value Invalid Date at path createdAt".

(** Creation time within [d] milliseconds of [t]. *)
Definition within (d t : Z) (q : Quotation) : Prop :=
  t - d <= createdAt q <= t + d.

(** [r] is a most recently created quotation within [d] of [t], or there is
    none and [r] is [None]. *)
Definition most_recent_within (d t : Z) (qs : list Quotation) (r : option Quotation) : Prop :=
  match r with
  | Some q =>
      q ∈ qs /\ within d t q
      /\ forall q', q' ∈ qs -> within d t q' -> createdAt q' <= createdAt q
  | None => forall q', q' ∈ qs -> ~ within d t q'
  end.

(** ** The locator strategies, in the order of the source *)

(** [Quotation.findOne({ quotationPdf: filename })] *)
Definition exactMatch (filename : string) (w : World) : Result (option Quotation) :=
  Ok (findOne (fun q => bool_decide (quotationPdf q = Some filename)) (quotations w)).

(** [Quotation.findOne({ quotationPdf: { $regex: escaped, $options: 'i' } })] *)
Definition partialMatch (filename : string) (w : World) : Result (option Quotation) :=
  match compile (escapeRegExp (s2l filename)) with
  | Some r => Ok (findOne (fun q => regex_field r (quotationPdf q)) (quotations w))
  | None => Threw "Regular expression is invalid"
  end.

(** Inquiry number embedded in [quotation_INQ..._TIMESTAMP.pdf]: the
    inquiry by number, then the quotation by the inquiry's identifier and,
    failing that, by the inquiry number itself. *)
Definition inquiryNumberSearch (filename : string) (w : World) : Result (option Quotation) :=
  match js_match re_inquiry filename with
  | Some inquiryMatch =>
      let inquiryNumber_ := l2s (default [] (cap 1 inquiryMatch)) in
      match findOne (fun i => String.eqb (inquiryNumber i) inquiryNumber_) (inquiries w) with
      | Some foundInquiry =>
          match findOne (fun q => String.eqb (inquiryId q) (i_id foundInquiry)) (quotations w) with
          | Some quotation => Ok (Some quotation)
          | None => Ok (findOne (fun q => String.eqb (inquiryId q) inquiryNumber_) (quotations w))
          end
      | None => Ok None
      end
  | None => Ok None
  end.

(** Timestamp of [quotation-TIMESTAMP-RANDOM.pdf], within 5 seconds. *)
Definition timestampSearch (filename : string) (w : World) : Result (option Quotation) :=
  match js_match re_timestamp filename with
  | Some timestampMatch =>
      let timestamp := parseInt (default [] (cap 1 timestampMatch)) in
      findLatestCreatedBetween (timestamp - 5000) (timestamp + 5000) w
  | None => Ok None
  end.

(** Timestamp of the generated format [quotation_INQ..._TIMESTAMP.pdf],
    within 10 seconds. *)
Definition generatedTimestampSearch (filename : string) (w : World) : Result (option Quotation) :=
  match js_match re_generated filename with
  | Some generatedTimestampMatch =>
      let timestamp := parseInt (default [] (cap 1 generatedTimestampMatch)) in
      findLatestCreatedBetween (timestamp - 10000) (timestamp + 10000) w
  | None => Ok None
  end.

Definition run_strategy (s : Strategy) : string -> World -> Result (option Quotation) :=
  match s with
  | SExact => exactMatch
  | SFuzzy => partialMatch
  | SInquiry => inquiryNumberSearch
  | STimestamp => timestampSearch
  | SGenerated => generatedTimestampSearch
  end.

(** [if (!quotation) { ... quotation = await ... }] *)
Definition if_not_found (quotation : option Quotation) (s : Strategy) (filename : string)
    : Handler (option Quotation) :=
  match quotation with
  | Some q => ret (Some q)
  | None => tell (EvTry s) ;;; query (run_strategy s filename)
  end.

(** The cascade of [handleQuotationPDF], lines "Find quotation by PDF
    filename" to "generated format timestamp". *)
Definition locate (filename : string) : Handler (option Quotation) :=
  quotation <- (tell (EvTry SExact) ;;; query (exactMatch filename)) ;;
  quotation <- if_not_found quotation SFuzzy filename ;;
  quotation <- if_not_found quotation SInquiry filename ;;
  quotation <- if_not_found quotation STimestamp filename ;;
  quotation <- if_not_found quotation SGenerated filename ;;
  ret quotation.

(** The order of the strategies, and the cascade as a specification: the
    result of the first strategy that does not answer "no document", with the
    strategies entered on the way. *)
Definition strategy_order : list Strategy :=
  [SExact; SFuzzy; SInquiry; STimestamp; SGenerated].

Fixpoint first_success (ss : list Strategy) (filename : string) (w : World)
    : Result (option Quotation) * list Event :=
  match ss with
  | [] => (Ok None, [])
  | s :: ss' =>
      match run_strategy s filename w with
      | Ok None =>
          let '(r, evs) := first_success ss' filename w in (r, EvTry s :: evs)
      | r => (r, [EvTry s])
      end
  end.

Definition strategies_before (s : Strategy) : list Strategy :=
  match s with
  | SExact => []
  | SFuzzy => [SExact]
  | SInquiry => [SExact; SFuzzy]
  | STimestamp => [SExact; SFuzzy; SInquiry]
  | SGenerated => [SExact; SFuzzy; SInquiry; STimestamp]
  end.

(** The two filename shapes that embed a generation timestamp, with the
    strategy that reads it, its tolerance in milliseconds, and the digits:
    [quotation-<ts>-<rand>] (an upload name; [rand] has no underscore) and
    [quotation_<ref>_<ts>.pdf] (a generated name; [ref] has no underscore).
    [<ts>] is a timestamp: a run of digits whose tolerance window ends within
    the range of dates. *)
Definition all_digits (l : list ascii) : bool := forallb is_digit l.
Definition has_char (c : ascii) (l : list ascii) : bool := existsb (Ascii.eqb c) l.

Inductive timestamped : list ascii -> Strategy -> Z -> list ascii -> Prop :=
| ShapeUploaded (ts rand : list ascii) :
    ts <> [] -> all_digits ts = true -> parseInt ts + 5000 <= MAX_DATE ->
    has_char "_" rand = false ->
    timestamped (s2l "quotation-" ++ ts ++ "-"%char :: rand) STimestamp 5000 ts
| ShapeGenerated (ref ts : list ascii) :
    ref <> [] -> has_char "_" ref = false ->
    ts <> [] -> all_digits ts = true -> parseInt ts + 10000 <= MAX_DATE ->
    timestamped (s2l "quotation_" ++ ref ++ "_"%char :: ts ++ s2l ".pdf") SGenerated 10000 ts.

(** ** Shaping the PDF data *)

(** [v || d] on an optional string and on an optional number. *)
Definition or_str (v : option string) (d : string) : string :=
  match v with
  | Some s => if String.eqb s EmptyString then d else s
  | None => d
  end.

Definition or_num (v : option Z) (d : Z) : Z :=
  match v with
  | Some n => if n =? 0 then d else n
  | None => d
  end.

Definition rowOfItem (item : Item) : PdfPart :=
  {| partRef := or_str (item_partRef item) EmptyString;
     material := or_str (item_material item) "Zintec";
     thickness := or_str (item_thickness item) "1.5";
     quantity := or_num (item_quantity item) 1;
     price := or_num (item_unitPrice item) 0;
     remarks := or_str (item_remark item) EmptyString |}.

Definition rowOfPart (part : Part) : PdfPart :=
  {| partRef := or_str (part_partRef part) EmptyString;
     material := or_str (part_material part) "Zintec";
     thickness := or_str (part_thickness part) "1.5";
     quantity := or_num (part_quantity part) 1;
     price := 0;
     remarks := or_str (part_remarks part) EmptyString |}.

Definition THIRTY_DAYS : Z := 30 * 24 * 60 * 60 * 1000.

Definition default_terms : string :=
  "Standard manufacturing terms apply. Payment required before production begins.".

Definition pdfQuotationData (quotation : Quotation) (inquiry : Inquiry) (date_now : Z)
    : PdfQuotationData :=
  {| pd_parts :=
       if (0 <? length (items quotation))%nat
       then map rowOfItem (items quotation)
       else map rowOfPart (parts inquiry);
     pd_totalAmount := totalAmount quotation;
     pd_currency := "USD";
     pd_validUntil := default (date_now + THIRTY_DAYS) (validUntil quotation);
     pd_terms := or_str (terms quotation) default_terms |}.

(** [req.query.download === 'true' || req.query.download === '1'] *)
Definition shouldDownload (download : option string) : bool :=
  match download with
  | Some v => String.eqb v "true" || String.eqb v "1"
  | None => false
  end.

Definition disposition_of (download : option string) : string :=
  if shouldDownload download then "attachment" else "inline".

(** ** The handlers *)

Section Handlers.

(** The PDF service is not part of the handler: it receives the inquiry and
    the shaped data, reads the clock and the store, and resolves to a file
    name and path (writing the store) or rejects. *)
Variable generateQuotationPDF :
  Inquiry -> PdfQuotationData -> Z -> gset string -> Result (PdfResult * gset string).

(** [mongoose.Types.ObjectId.isValid]. *)
Variable ObjectId_isValid : string -> bool.

Definition generate (inquiry : Inquiry) (data : PdfQuotationData) : Handler PdfResult :=
  fun w =>
    let w1 := add_log [EvGenerate (i_id inquiry)] w in
    match generateQuotationPDF inquiry data (now w) (files w) with
    | Ok (pdfResult, files') => (Ok pdfResult, set_files files' w1)
    | Threw e => (Threw e, w1)
    end.

(** [quotation.save()]: the stored document with this identifier is
    replaced. *)
Definition save (quotation : Quotation) : Handler unit :=
  fun w =>
    (Ok tt,
     add_log [EvSave (q_id quotation)]
       (set_quotations
          (map (fun q => if String.eqb (q_id q) (q_id quotation) then quotation else q)
               (quotations w)) w)).

(** The inquiry of a quotation: by identifier when [inquiryId] is a valid
    ObjectId, by inquiry number otherwise. *)
Definition findInquiry (quotation : Quotation) (w : World) : Result (option Inquiry) :=
  if ObjectId_isValid (inquiryId quotation)
  then Ok (findOne (fun i => String.eqb (i_id i) (inquiryId quotation)) (inquiries w))
  else Ok (findOne (fun i => String.eqb (inquiryNumber i) (inquiryId quotation)) (inquiries w)).

Definition notFoundBody (filename : string) : list (string * JVal) :=
  [("success", JBool false);
   ("message", JStr "Quotation PDF not found and cannot be regenerated");
   ("filename", JStr filename)].

(** The body of the [try] of [handleQuotationPDF]. *)
Definition regenerate (filename disposition : string) : Handler Response :=
  quotation <- locate filename ;;
  match quotation with
  | None => ret (Json 404 (notFoundBody filename))
  | Some quotation =>
      inquiry <- query (findInquiry quotation) ;;
      match inquiry with
      | None =>
          ret (Json 404 [("success", JBool false);
                         ("message", JStr "Inquiry not found for quotation");
                         ("quotationId", JStr (q_id quotation));
                         ("inquiryId", JStr (inquiryId quotation))])
      | Some inquiry =>
          date_now <- query (fun w => Ok (now w)) ;;
          pdfResult <- generate inquiry (pdfQuotationData quotation inquiry date_now) ;;
          created <- query (fun w => Ok (existsSync w (filePath pdfResult))) ;;
          if negb created then
            ret (Json 500 [("success", JBool false);
                           ("message", JStr "PDF generation failed - file not created");
                           ("path", JStr (filePath pdfResult))])
          else
            (if negb (String.eqb (fileName pdfResult) filename)
             then save (set_quotationPdf (fileName pdfResult) quotation)
             else ret tt) ;;;
            ret (SendFile disposition (fileName pdfResult) (filePath pdfResult))
      end
  end.

(** The [catch] of [handleQuotationPDF]. *)
Definition caught (r : Result Response * World) : Response * World :=
  match r with
  | (Ok resp, w) => (resp, w)
  | (Threw e, w) =>
      (Json 500 [("success", JBool false);
                 ("message", JStr "Error regenerating PDF");
                 ("error", JStr e)], w)
  end.

Definition serveExisting (filename : string) (download : option string) : Response :=
  SendFile (disposition_of download) filename (quotationPath filename).

Definition handleQuotationPDF (filename : string) (download : option string) (w : World)
    : Response * World :=
  if existsSync w (quotationPath filename)
  then (serveExisting filename download, w)
  else caught (regenerate filename (disposition_of download) w).

(** Two requests for the same filename that overlap: each runs its
    synchronous prefix (the existence check, up to the first [await]) before
    the continuation of either is resumed. *)
Definition handleOverlapping (filename : string) (d1 d2 : option string) (w : World)
    : Response * Response * World :=
  let hit1 := existsSync w (quotationPath filename) in
  let hit2 := existsSync w (quotationPath filename) in
  let '(r1, w1) :=
    if hit1 then (serveExisting filename d1, w)
    else caught (regenerate filename (disposition_of d1) w) in
  let '(r2, w2) :=
    if hit2 then (serveExisting filename d2, w1)
    else caught (regenerate filename (disposition_of d2) w1) in
  (r1, r2, w2).

(** The older route [app.get('/api/uploads/quotations/:filename')]: exact
    pointer match only, inquiry by identifier, always inline, and no check
    that the generated file exists. *)
Definition legacyRegenerate (filename : string) : Handler Response :=
  quotation <- query (exactMatch filename) ;;
  match quotation with
  | None => ret (Json 404 (notFoundBody filename))
  | Some quotation =>
      inquiry <- query (fun w =>
        Ok (findOne (fun i => String.eqb (i_id i) (inquiryId quotation)) (inquiries w))) ;;
      match inquiry with
      | None =>
          ret (Json 404 [("success", JBool false);
                         ("message", JStr "Inquiry not found for quotation");
                         ("quotationId", JStr (q_id quotation))])
      | Some inquiry =>
          date_now <- query (fun w => Ok (now w)) ;;
          pdfResult <- generate inquiry (pdfQuotationData quotation inquiry date_now) ;;
          (if negb (String.eqb (fileName pdfResult) filename)
           then save (set_quotationPdf (fileName pdfResult) quotation)
           else ret tt) ;;;
          ret (SendFile "inline" (fileName pdfResult) (filePath pdfResult))
      end
  end.

Definition legacyRoute (filename : string) (w : World) : Response * World :=
  if existsSync w (quotationPath filename)
  then (SendFile "inline" filename (quotationPath filename), w)
  else
    match legacyRegenerate filename w with
    | (Ok resp, w') => (resp, w')
    | (Threw e, w') =>
        (Json 500 [("success", JBool false); ("message", JStr "Server error");
                   ("error", JStr e)], w')
    end.

(** Whether the rebuild path gets as far as the PDF service: a quotation is
    located and its inquiry is found. *)
Definition resolves (filename : string) (w : World) : bool :=
  match fst (locate filename w) with
  | Ok (Some q) =>
      match findInquiry q w with
      | Ok (Some _) => true
      | _ => false
      end
  | _ => false
  end.

(** Whether a request reaches the PDF service: the file is missing and the
    rebuild path resolves. *)
Definition reaches_build (filename : string) (w : World) : bool :=
  negb (existsSync w (quotationPath filename)) && resolves filename w.

(** What [save] stores in place of the located quotation [q]. *)
Definition with_pointer (name : string) (q : Quotation) (qs : list Quotation)
    : list Quotation :=
  map (fun q' => if String.eqb (q_id q') (q_id q) then set_quotationPdf name q else q') qs.

End Handlers.

(** Number of PDF-service invocations and of document saves in a log. *)
Definition is_generate (e : Event) : bool :=
  match e with EvGenerate _ => true | _ => false end.
Definition is_save (e : Event) : bool :=
  match e with EvSave _ => true | _ => false end.
Definition count_events (p : Event -> bool) (l : list Event) : nat := length (filter p l).

(** ** The interceptor and its timers

    [quotationPDFInterceptor] runs before the handler may be registered.
    Time is in milliseconds; [ready t] tells whether [quotationPDFHandler]
    is set at time [t]; [headersSent tc t] tells whether a handler called at
    [tc] has sent its response headers by [t].  Timers fire on time: the
    interval every 100 ms, the timeout after 5000 ms; [interval_first] is the
    order of the two callbacks due at the same millisecond. *)

Record Timers : Type := mkTimers {
  handler_called : option Z;             (* when the handler was called *)
  interval_live : bool;                  (* the interval is not cleared *)
  timeout_sent : option (Z * Response)   (* what the timeout sent, and when *)
}.

Inductive Intercepted : Type :=
| Next                                 (* not a quotation PDF: [next()] *)
| Delegated (filename : string) (t : Z) (* handler called at once *)
| Waited (filename : string) (st : Timers).

Definition serviceUnavailable : Response :=
  Json 503 [("success", JBool false); ("message", JStr "Service temporarily unavailable")].

Section Interceptor.

Variable ready : Z -> bool.
Variable headersSent : Z -> Z -> bool.
Variable interval_first : bool.

(** The [setInterval] callback at time [t]. *)
Definition checkHandler (t : Z) (st : Timers) : Timers :=
  if interval_live st && ready t
  then {| handler_called := Some t; interval_live := false;
          timeout_sent := timeout_sent st |}
  else st.

(** The [setTimeout] callback at time [t]. *)
Definition onTimeout (t : Z) (st : Timers) : Timers :=
  let sent :=
    match handler_called st with
    | Some tc => headersSent tc t
    | None => false
    end in
  {| handler_called := handler_called st; interval_live := false;
     timeout_sent := if sent then None else Some (t, serviceUnavailable) |}.

(** The interval callbacks strictly before the timeout: 100, 200, ..., 4900
    ms after arrival. *)
Definition tick_offsets : list Z := map (fun k => 100 * Z.of_nat k) (seq 1 49).

Definition run_timers (t0 : Z) : Timers :=
  let st0 := {| handler_called := None; interval_live := true; timeout_sent := None |} in
  let st1 := fold_left (fun st d => checkHandler (t0 + d) st) tick_offsets st0 in
  let st2 := if interval_first then checkHandler (t0 + 5000) st1 else st1 in
  onTimeout (t0 + 5000) st2.

(** [path.replace('/quotations/', '')] on a path that starts with it. *)
Definition strip_prefix (path : string) : string :=
  String.substring 12 (String.length path - 12) path.

Definition quotationPDFInterceptor (path : string) (t0 : Z) : Intercepted :=
  if String.prefix "/quotations/" path then
    let filename := strip_prefix path in
    if ready t0 then Delegated filename t0
    else Waited filename (run_timers t0)
  else Next.

End Interceptor.

(** ** Concrete collaborators and worlds used as examples *)

(** Decimal digits of a non-negative number, as [String(n)] prints them. *)
Fixpoint decimal_go (fuel : nat) (n : Z) (acc : list ascii) : list ascii :=
  match fuel with
  | O => acc
  | S fuel' =>
      let d := ascii_of_nat (Z.to_nat (48 + n mod 10)) in
      if n <? 10 then d :: acc else decimal_go fuel' (n / 10) (d :: acc)
  end.
Definition decimal (n : Z) : string := l2s (decimal_go (S (Z.to_nat (Z.log2 n))) n []).

(** Modelled from the spec: [services/pdfService] is not among the sources.
    The builder returns bytes under a canonical filename of its own choice;
    the handler's comments give the generated format
    [quotation_<inquiryNumber>_<timestamp>.pdf].  This service names its file
    after the inquiry number and the clock and writes it into the quotations
    directory. *)
Definition stampedPdfService (inquiry : Inquiry) (data : PdfQuotationData) (date_now : Z)
    (fs : gset string) : Result (PdfResult * gset string) :=
  let name := "quotation_" +:+ inquiryNumber inquiry +:+ "_" +:+ decimal date_now +:+ ".pdf" in
  Ok ({| fileName := name; filePath := quotationPath name |}, {[ quotationPath name ]} ∪ fs).

Definition is_hex (c : ascii) : bool :=
  is_digit c || in_range "a" "f" c || in_range "A" "F" c.

(** 24 hexadecimal characters. *)
Definition hex24 (s : string) : bool :=
  (length (s2l s) =? 24)%nat && forallb is_hex (s2l s).

Definition inquiry1 : Inquiry :=
  {| i_id := "65a1b2c3d4e5f60718293a4b"; inquiryNumber := "INQ251031789";
     parts := [ {| part_partRef := None; part_material := Some "Steel";
                   part_thickness := Some "2mm"; part_quantity := Some 5;
                   part_remarks := None |} ] |}.

Definition quotation1 (pointer : option string) : Quotation :=
  {| q_id := "65a1b2c3d4e5f60718293a4c"; inquiryId := "65a1b2c3d4e5f60718293a4b";
     totalAmount := 500; items := []; quotationPdf := pointer; status := sent;
     validUntil := None; terms := None; createdAt := 1700000000000 |}.

Definition world1 (pointer : option string) : World :=
  {| files := ∅; quotations := [quotation1 pointer]; inquiries := [inquiry1];
     now := 1700000600000; log := [] |}.

Definition handle1 := handleQuotationPDF stampedPdfService hex24.

(** The upload name of the stored document, a name in the generated format,
    and the name the service generates at the clock of [world1]. *)
Definition uploaded_name : string := "quotation-1700000000000-7421.pdf".
Definition generated_name : string := "quotation_INQ251031789_1700000003000.pdf".
Definition current_name : string := "quotation_INQ251031789_1700000600000.pdf".

(** The same world with the uploaded file still in the store. *)
Definition world_with_file : World :=
  set_files {[ quotationPath uploaded_name ]} (world1 (Some uploaded_name)).

(** A request name that no strategy resolves in [world1]: its timestamp is
    six seconds after the creation of the only quotation. *)
Definition unresolvable_name : string := "quotation-1700000006000-7421.pdf".

(** An upload name without its extension: a substring of the stored
    pointer that also carries the creation timestamp. *)
Definition truncated_name : string := "quotation-1700000000000-7421".

(** ** The rest of the server: request routing, CORS, document numbers *)

(** [str.startsWith(p)] and [str.includes(p)] on character lists. *)
Fixpoint prefixb (p s : list ascii) : bool :=
  match p, s with
  | [], _ => true
  | a :: p', c :: s' => Ascii.eqb a c && prefixb p' s'
  | _ :: _, [] => false
  end.

Fixpoint includesb (p s : list ascii) : bool :=
  prefixb p s || match s with [] => false | _ :: s' => includesb p s' end.

Definition includes (str p : string) : bool := includesb (s2l p) (s2l str).

(** The second disjunct of the interceptor's test,
    [path.match(/^\/quotations\/[^\/]+\.pdf$/)]. *)
Definition re_quotation_path : regex :=
  Eval vm_compute in default REmpty (compile (s2l "^\/quotations\/[^\/]+\.pdf$")).

(** [path.startsWith('/quotations/') || path.match(...)] *)
Definition isQuotationPdfRequest (path : string) : bool :=
  String.prefix "/quotations/" path
  || bool_decide (is_Some (js_match re_quotation_path path)).

(** *** CORS (the [origin] function of [corsOptions]) *)

(** The list the function builds; [filter(Boolean)] drops an unset or empty
    [CLIENT_URL]. *)
Definition allowedOrigins (CLIENT_URL : option string) : list string :=
  [ "http://localhost:3000"; "http://localhost:3001";
    "http://127.0.0.1:3000"; "http://127.0.0.1:3001";
    "https://komacut-frontend.onrender.com";
    "https://comcat-frontend.onrender.com";
    "https://comcat-frontends.onrender.com" ]
  ++ match CLIENT_URL with
     | Some u => if String.eqb u EmptyString then [] else [u]
     | None => []
     end.

(** [true] for [callback(null, true)], [false] for
    [callback(new Error('Not allowed by CORS'))].  The origin is [None] when
    the request has no [Origin] header. *)
Definition corsOrigin (CLIENT_URL : option string) (origin : option string) : bool :=
  match origin with
  | None => true
  | Some o =>
      if String.eqb o EmptyString then true
      else if existsb (String.eqb o) (allowedOrigins CLIENT_URL) then true
      else includes o ".onrender.com" || includes o ".netlify.app"
           || includes o ".vercel.app"
  end.

(** *** Document numbers (the [pre] hooks of the two schemas) *)

(** [n.toString()] for a non-negative integer, [s.slice(-k)] and
    [s.padStart(n, c)]. *)
Definition toString (n : Z) : list ascii := s2l (decimal n).
Definition slice_last (k : nat) (l : list ascii) : list ascii :=
  skipn (length l - k) l.
Definition padStart (n : nat) (c : ascii) (l : list ascii) : list ascii :=
  repeat c (n - length l) ++ l.

(** The number built in the hooks from the parts of the current date
    ([getFullYear()], [getMonth()], [getDate()]) and from
    [Math.floor(Math.random() * 1000)]. *)
Definition generateNumber (tag : string) (fullYear month date random : Z) : string :=
  l2s (s2l tag
       ++ slice_last 2 (toString fullYear)
       ++ padStart 2 "0" (toString (month + 1))
       ++ padStart 2 "0" (toString date)
       ++ padStart 3 "0" (toString random)).

(** [!this.inquiryNumber]: unset or empty. *)
Definition falsy_str (v : option string) : bool :=
  match v with
  | Some s => String.eqb s EmptyString
  | None => true
  end.

(** A hook: [if (this.isNew && !this.number) this.number = ...]. *)
Definition assignNumber (tag : string) (isNew : bool) (current : option string)
    (fullYear month date random : Z) : option string :=
  if isNew && falsy_str current
  then Some (generateNumber tag fullYear month date random)
  else current.

(** The Inquiry schema runs the hook before validation and again before
    saving, each with its own date and random draw. *)
Definition inquiryNumberAfterHooks (isNew : bool) (current : option string)
    (y1 m1 d1 r1 y2 m2 d2 r2 : Z) : option string :=
  assignNumber "INQ" isNew (assignNumber "INQ" isNew current y1 m1 d1 r1) y2 m2 d2 r2.

(** A calendar date of a four-digit year and a random draw below 1000. *)
Definition date_parts_ok (fullYear month date random : Z) : Prop :=
  1000 <= fullYear <= 9999 /\ 0 <= month <= 11 /\ 1 <= date <= 31 /\ 0 <= random <= 999.

(** A test on every integer from [lo] up to [lo + n - 1]. *)
Definition forall_range (P : Z -> bool) (lo : Z) (n : nat) : bool :=
  forallb (fun k => P (lo + Z.of_nat k)) (seq 0 n).

(** Exactly [k] characters, all of them digits. *)
Definition digits_of_length (k : nat) (l : list ascii) : bool :=
  (length l =? k)%nat && all_digits l.

(** *** Comparing documents up to the pointer *)

Definition forget_pointer (q : Quotation) : Quotation :=
  {| q_id := q_id q; inquiryId := inquiryId q; totalAmount := totalAmount q;
     items := items q; quotationPdf := None; status := status q;
     validUntil := validUntil q; terms := terms q; createdAt := createdAt q |}.

(** *** More concrete values *)

(** A PDF service that resolves without writing its file. *)
Definition forgetfulPdfService (inquiry : Inquiry) (data : PdfQuotationData) (date_now : Z)
    (fs : gset string) : Result (PdfResult * gset string) :=
  let name := "quotation_" +:+ inquiryNumber inquiry +:+ "_" +:+ decimal date_now +:+ ".pdf" in
  Ok ({| fileName := name; filePath := quotationPath name |}, fs).

(** A PDF service that rejects. *)
Definition failingPdfService (inquiry : Inquiry) (data : PdfQuotationData) (date_now : Z)
    (fs : gset string) : Result (PdfResult * gset string) :=
  Threw "Failed to generate PDF".

(** A quotation whose inquiry is gone. *)
Definition orphan_quotation : Quotation :=
  {| q_id := "65a1b2c3d4e5f60718293a4d"; inquiryId := "65a1b2c3d4e5f60718293a4e";
     totalAmount := 120; items := []; quotationPdf := Some uploaded_name;
     status := created; validUntil := None; terms := None;
     createdAt := 1700000000000 |}.

Definition orphan_world : World :=
  {| files := ∅; quotations := [orphan_quotation]; inquiries := [inquiry1];
     now := 1700000600000; log := [] |}.

(** The upload name in capitals, and a generated name that carries the
    number of no stored inquiry. *)
Definition capital_name : string := "QUOTATION-1700000000000-7421.PDF".
Definition foreign_name : string := "quotation_INQ000000000_1700000003000.pdf".

(** A handler that is registered 250 ms after the start of the clock. *)
Definition ready_from_250 (t : Z) : bool := 250 <=? t.
(** ** The escaped filename is a literal pattern *)

Section EscapedPattern.

Lemma special_not_alnum c : is_special c = true -> parse_escape c = Some (CLit c).
Proof.
  destruct c as [[] [] [] [] [] [] [] []]; vm_compute; intros H;
    solve [reflexivity | discriminate H].
Qed.

Lemma meta_is_special c : is_meta c = true -> is_special c = true.
Proof.
  destruct c as [[] [] [] [] [] [] [] []]; vm_compute; intros H;
    solve [reflexivity | discriminate H].
Qed.

(** What the parser does on a character that the escaping leaves alone. *)
Lemma plain_char_atom c fuel g p :
  is_special c = false ->
  parse_atom (S fuel) g (c :: p) = Some (RChar (CLit c), g, p)
  /\ Ascii.eqb c "|" || Ascii.eqb c ")" = false
  /\ (forall a, parse_quant a (c :: p) = (a, c :: p)).
Proof.
  destruct c as [[] [] [] [] [] [] [] []]; intros H; vm_compute in H;
    try discriminate H; clear H;
    (split; [reflexivity | split; [reflexivity | intros a; reflexivity]]).
Qed.

Lemma escaped_no_quant a s : parse_quant a (escapeRegExp s) = (a, escapeRegExp s).
Proof.
  destruct s as [|c s]; [reflexivity|]. simpl.
  destruct (is_special c) eqn:E.
  - reflexivity.
  - apply (plain_char_atom c O O), E.
Qed.

Lemma parse_seq_cons fuel g c p :
  Ascii.eqb c "|" || Ascii.eqb c ")" = false ->
  parse_seq (S fuel) g (c :: p) =
  match parse_atom fuel g (c :: p) with
  | Some (a, g1, p1) =>
      match parse_seq fuel g1 (snd (parse_quant a p1)) with
      | Some (r, g2, p3) => Some (RSeq (fst (parse_quant a p1)) r, g2, p3)
      | None => None
      end
  | None => None
  end.
Proof.
  intros H.
  change (parse_seq (S fuel) g (c :: p))
    with (if Ascii.eqb c "|" || Ascii.eqb c ")"
          then Some (REmpty, g, c :: p)
          else match parse_atom fuel g (c :: p) with
               | Some (a, g1, p1) =>
                   let '(aq, p2) := parse_quant a p1 in
                   match parse_seq fuel g1 p2 with
                   | Some (r, g2, p3) => Some (RSeq aq r, g2, p3)
                   | None => None
                   end
               | None => None
               end).
  rewrite H. destruct (parse_atom fuel g (c :: p)) as [[[a g1] p1]|]; [|reflexivity].
  destruct (parse_quant a p1); reflexivity.
Qed.

Lemma parse_atom_backslash fuel g c p :
  parse_atom (S fuel) g ("\"%char :: c :: p) =
  match parse_escape c with
  | Some cs => Some (RChar cs, g, p)
  | None => None
  end.
Proof. reflexivity. Qed.

Lemma parse_seq_escaped s : forall fuel g,
  (length s < fuel)%nat ->
  parse_seq fuel g (escapeRegExp s) = Some (lits s REmpty, g, []).
Proof.
  induction s as [|c s IH]; intros fuel g Hf.
  - destruct fuel; [lia|]. reflexivity.
  - destruct fuel as [|fuel]; [simpl in Hf; lia|].
    destruct fuel as [|fuel]; [simpl in Hf; lia|].
    assert (Hs : (length s < S fuel)%nat) by (simpl in Hf; lia).
    cbn [escapeRegExp]. destruct (is_special c) eqn:E.
    + rewrite parse_seq_cons by reflexivity.
      rewrite parse_atom_backslash, (special_not_alnum c E), escaped_no_quant.
      cbn [fst snd]. rewrite (IH _ g Hs). reflexivity.
    + destruct (plain_char_atom c fuel g (escapeRegExp s) E) as (Ha & Hstop & Hq).
      rewrite parse_seq_cons by exact Hstop.
      rewrite Ha, escaped_no_quant. cbn [fst snd]. rewrite (IH _ g Hs). reflexivity.
Qed.

Lemma length_escapeRegExp s : (length s <= length (escapeRegExp s))%nat.
Proof.
  induction s as [|c s IH]; simpl; [lia|].
  destruct (is_special c); simpl; lia.
Qed.

Lemma compile_escaped s : compile (escapeRegExp s) = Some (lits s REmpty).
Proof.
  unfold compile.
  pose proof (length_escapeRegExp s) as Hl.
  replace (2 * length (escapeRegExp s) + 2)%nat
    with (S (S (2 * length (escapeRegExp s))))%nat by lia.
  cbn [parse_alt]. rewrite parse_seq_escaped by lia. reflexivity.
Qed.

Lemma rmatch_lits ci n0 p : forall r s cp k,
  rmatch ci n0 (lits p r) s cp k =
  match p, s with
  | [], _ => rmatch ci n0 r s cp k
  | a :: p', c :: s' =>
      if cset_mem ci (CLit a) c then rmatch ci n0 (lits p' r) s' cp k else None
  | _ :: _, [] => None
  end.
Proof. destruct p, s; reflexivity. Qed.

Lemma rmatch_here_lits_ci n0 p : forall s,
  rmatch_here true n0 (lits p REmpty) s = if prefix_ci p s then Some [] else None.
Proof.
  unfold rmatch_here.
  induction p as [|a p IH]; intros s; [destruct s; reflexivity|].
  rewrite rmatch_lits. destruct s as [|c s]; [reflexivity|].
  cbn [cset_mem prefix_ci]. destruct (eqb_ci a c); [apply IH | reflexivity].
Qed.

Lemma rsearch_from_lits_ci n0 p : forall s,
  rsearch_from true n0 (lits p REmpty) s = if substring_ci p s then Some [] else None.
Proof.
  induction s as [|c s IH].
  - cbn [rsearch_from substring_ci]. rewrite rmatch_here_lits_ci.
    destruct (prefix_ci p []); reflexivity.
  - cbn [rsearch_from substring_ci]. rewrite rmatch_here_lits_ci, IH.
    destruct (prefix_ci p (c :: s)); reflexivity.
Qed.

Lemma regex_test_escaped p s :
  regex_test true (escapeRegExp p) s = Some (substring_ci p s).
Proof.
  unfold regex_test, rsearch. rewrite compile_escaped, rsearch_from_lits_ci.
  destruct (substring_ci p s); reflexivity.
Qed.

End EscapedPattern.

(** ** Matching the filename shapes *)

Section Shapes.

Variable n0 : nat.

(** A greedy star over a character set swallows a whole run of the set when
    the continuation accepts what follows the run. *)
Lemma rmatch_char ci cs c s cp k :
  rmatch ci n0 (RChar cs) (c :: s) cp k = if cset_mem ci cs c then k s cp else None.
Proof. reflexivity. Qed.

Lemma rmatch_seq ci r1 r2 s cp k :
  rmatch ci n0 (RSeq r1 r2) s cp k =
  rmatch ci n0 r1 s cp (fun s' cp' => rmatch ci n0 r2 s' cp' k).
Proof. reflexivity. Qed.

Lemma rmatch_char_nil ci cs cp k : rmatch ci n0 (RChar cs) [] cp k = None.
Proof. reflexivity. Qed.

Lemma star_loop_run cs run : forall fuel rest cp k x,
  (length run <= fuel)%nat ->
  Forall (fun c => cset_mem false cs c = true) run ->
  hd_error rest = None \/ (exists c, hd_error rest = Some c /\ cset_mem false cs c = false) ->
  k rest cp = Some x ->
  star_loop (rmatch false n0 (RChar cs)) k fuel (run ++ rest) cp = Some x.
Proof.
  induction run as [|c run IH]; intros fuel rest cp k x Hf Hall Hrest Hk.
  - cbn [app]. destruct fuel as [|fuel]; [exact Hk|].
    cbn [star_loop].
    destruct rest as [|c rest]; [rewrite rmatch_char_nil; exact Hk|].
    destruct Hrest as [Hrest|(c' & Hc' & Hn)]; [discriminate Hrest|].
    injection Hc' as ->. rewrite rmatch_char, Hn. exact Hk.
  - destruct fuel as [|fuel]; [simpl in Hf; lia|].
    inversion Hall as [|? ? Hc Hall']; subst.
    cbn [star_loop app]. rewrite rmatch_char, Hc.
    replace (length (run ++ rest) <? length (c :: run ++ rest))%nat with true
      by (symmetry; apply Nat.ltb_lt; simpl; lia).
    rewrite (IH fuel rest cp k x); [reflexivity| simpl in Hf; lia | assumption..].
Qed.

Lemma rmatch_plus_run cs c run rest cp k x :
  Forall (fun c => cset_mem false cs c = true) (c :: run) ->
  hd_error rest = None \/ (exists c, hd_error rest = Some c /\ cset_mem false cs c = false) ->
  k rest cp = Some x ->
  rmatch false n0 (RPlus (RChar cs)) (c :: run ++ rest) cp k = Some x.
Proof.
  intros Hall Hrest Hk. inversion Hall as [|? ? Hc Hall']; subst.
  unfold RPlus. cbn [rmatch]. rewrite Hc.
  apply star_loop_run; [rewrite length_app; lia | assumption..].
Qed.

(** The capture group [(\d+)] on a run of digits. *)
Lemma rmatch_digits_group i ts rest cp k x :
  ts <> [] ->
  Forall (fun c => is_digit c = true) ts ->
  hd_error rest = None \/ (exists c, hd_error rest = Some c /\ is_digit c = false) ->
  k rest ((i, ts) :: cp) = Some x ->
  rmatch false n0 (RGroup i (RSeq (RPlus (RChar CDigit)) REmpty)) (ts ++ rest) cp k = Some x.
Proof.
  intros Hne Hall Hrest Hk. destruct ts as [|c ts]; [congruence|].
  cbn [rmatch app].
  apply (rmatch_plus_run CDigit c ts rest cp); [exact Hall | exact Hrest |].
  cbn [rmatch].
  replace (length (c :: ts ++ rest) - length rest)%nat with (length (c :: ts))
    by (simpl; rewrite length_app; lia).
  change (c :: ts ++ rest) with ((c :: ts) ++ rest).
  rewrite firstn_app, Nat.sub_diag, firstn_all. cbn [firstn]. rewrite app_nil_r.
  exact Hk.
Qed.

Lemma rmatch_lits_prefix l : forall r s cp k,
  rmatch false n0 (lits l r) (l ++ s) cp k = rmatch false n0 r s cp k.
Proof.
  induction l as [|a l IH]; intros r s cp k; [reflexivity|].
  cbn [lits rmatch app cset_mem]. rewrite Ascii.eqb_refl. apply IH.
Qed.

(** A pattern that starts with a literal text cannot match a subject that
    lacks one of the characters of that text. *)
Lemma rmatch_lits_absent a l : forall r s cp k,
  a ∈ l -> a ∉ s -> rmatch false n0 (lits l r) s cp k = None.
Proof.
  induction l as [|b l IH]; intros r s cp k Hin Hnot.
  - inversion Hin.
  - cbn [lits rmatch]. destruct s as [|c s]; [reflexivity|].
    apply not_elem_of_cons in Hnot as [Hac Hs].
    cbn [cset_mem]. destruct (Ascii.eqb b c) eqn:E; [|reflexivity].
    apply Ascii.eqb_eq in E. subst c.
    apply elem_of_cons in Hin as [->|Hin]; [congruence|].
    apply IH; assumption.
Qed.

Lemma rsearch_from_absent a l r : forall s,
  a ∈ l -> a ∉ s -> rsearch_from false n0 (lits l r) s = None.
Proof.
  induction s as [|c s IH]; intros Hin Hnot.
  - cbn [rsearch_from]. unfold rmatch_here. rewrite (rmatch_lits_absent a) by assumption.
    reflexivity.
  - cbn [rsearch_from]. unfold rmatch_here. rewrite (rmatch_lits_absent a) by assumption.
    apply IH; [assumption|]. apply not_elem_of_cons in Hnot. tauto.
Qed.

End Shapes.

Lemma re_timestamp_eq :
  re_timestamp =
  lits (s2l "quotation-")
    (RSeq (RGroup 1 (RSeq (RPlus (RChar CDigit)) REmpty)) (RSeq (RChar (CLit "-")) REmpty)).
Proof. reflexivity. Qed.

Lemma re_generated_eq :
  re_generated =
  lits (s2l "quotation_")
    (RSeq (RPlus (RChar (CNeg (CUnion CNone (CLit "_")))))
       (RSeq (RChar (CLit "_"))
          (RSeq (RGroup 1 (RSeq (RPlus (RChar CDigit)) REmpty)) (lits (s2l ".pdf") REmpty)))).
Proof. reflexivity. Qed.

Lemma re_inquiry_eq :
  re_inquiry =
  lits (s2l "quotation_")
    (RSeq (RGroup 1 (lits (s2l "INQ") (RSeq (RPlus (RChar CDigit)) REmpty)))
       (RSeq (RChar (CLit "_"))
          (RSeq (RGroup 2 (RSeq (RPlus (RChar CDigit)) REmpty)) (lits (s2l ".pdf") REmpty)))).
Proof. reflexivity. Qed.

(** [quotation-<ts>-<rand>]: the timestamp is captured. *)
Lemma match_timestamp_shape filename ts rand :
  s2l filename = s2l "quotation-" ++ ts ++ "-"%char :: rand ->
  ts <> [] -> Forall (fun c => is_digit c = true) ts ->
  js_match re_timestamp filename = Some [(1%nat, ts)].
Proof.
  intros Hshape Hne Hdig. unfold js_match, rsearch. rewrite Hshape.
  generalize (length (s2l "quotation-" ++ ts ++ "-"%char :: rand)); intros n0.
  assert (H : rmatch_here false n0 re_timestamp (s2l "quotation-" ++ ts ++ "-"%char :: rand)
              = Some [(1%nat, ts)]).
  { unfold rmatch_here. rewrite re_timestamp_eq, rmatch_lits_prefix, rmatch_seq.
    apply rmatch_digits_group; try assumption.
    - right. exists "-"%char. split; reflexivity.
    - reflexivity. }
  destruct (s2l "quotation-" ++ ts ++ "-"%char :: rand); cbn [rsearch_from]; rewrite H;
    reflexivity.
Qed.

(** [quotation_<ref>_<ts>.pdf]: the timestamp is captured. *)
Lemma match_generated_shape filename ref ts :
  s2l filename = s2l "quotation_" ++ ref ++ "_"%char :: ts ++ s2l ".pdf" ->
  ref <> [] -> "_"%char ∉ ref ->
  ts <> [] -> Forall (fun c => is_digit c = true) ts ->
  js_match re_generated filename = Some [(1%nat, ts)].
Proof.
  intros Hshape Hr Hnu Hne Hdig. unfold js_match, rsearch. rewrite Hshape.
  generalize (length (s2l "quotation_" ++ ref ++ "_"%char :: ts ++ s2l ".pdf")); intros n0.
  assert (H : rmatch_here false n0 re_generated
                (s2l "quotation_" ++ ref ++ "_"%char :: ts ++ s2l ".pdf")
              = Some [(1%nat, ts)]).
  { unfold rmatch_here. rewrite re_generated_eq, rmatch_lits_prefix.
    destruct ref as [|c ref]; [congruence|].
    rewrite rmatch_seq. cbn [app].
    apply (rmatch_plus_run n0 (CNeg (CUnion CNone (CLit "_"))) c ref).
    - apply Forall_forall. intros x Hx. cbn [cset_mem orb].
      destruct (Ascii.eqb "_" x) eqn:E; [|reflexivity].
      apply Ascii.eqb_eq in E. subst x. contradiction.
    - right. exists "_"%char. split; reflexivity.
    - rewrite rmatch_seq, rmatch_char. cbn [cset_mem]. rewrite Ascii.eqb_refl, rmatch_seq.
      apply rmatch_digits_group; try assumption.
      + right. exists "."%char. split; reflexivity.
      + reflexivity. }
  destruct (s2l "quotation_" ++ ref ++ "_"%char :: ts ++ s2l ".pdf"); cbn [rsearch_from];
    rewrite H; reflexivity.
Qed.

(** A filename without an underscore matches neither of the two patterns
    that start with [quotation_]. *)
Lemma no_underscore_inquiry filename :
  "_"%char ∉ s2l filename -> js_match re_inquiry filename = None.
Proof.
  intros H. unfold js_match, rsearch. rewrite re_inquiry_eq.
  apply (rsearch_from_absent _ "_"%char); [|exact H].
  set_solver.
Qed.

Lemma no_underscore_generated filename :
  "_"%char ∉ s2l filename -> js_match re_generated filename = None.
Proof.
  intros H. unfold js_match, rsearch. rewrite re_generated_eq.
  apply (rsearch_from_absent _ "_"%char); [|exact H].
  set_solver.
Qed.

(** ** The most recent document of a window *)

Lemma latest_spec l :
  match latest l with
  | Some q => q ∈ l /\ forall q', q' ∈ l -> createdAt q' <= createdAt q
  | None => l = []
  end.
Proof.
  induction l as [|q l IH]; [reflexivity|].
  cbn [latest]. destruct (latest l) as [m|].
  - destruct IH as [Hin Hmax].
    destruct (createdAt q <? createdAt m) eqn:E.
    + apply Z.ltb_lt in E. split; [set_solver|].
      intros q' Hq'. apply elem_of_cons in Hq' as [->|Hq']; [lia | auto].
    + apply Z.ltb_ge in E. split; [set_solver|].
      intros q' Hq'. apply elem_of_cons in Hq' as [->|Hq']; [lia|].
      specialize (Hmax q' Hq'). lia.
  - subst l. split; [set_solver|]. intros q' Hq'.
    apply list_elem_of_singleton in Hq'. subst. lia.
Qed.

Lemma in_window_within d t q : in_window (t - d) (t + d) q = true <-> within d t q.
Proof. unfold in_window, within. rewrite andb_true_iff, !Z.leb_le. tauto. Qed.

Lemma latest_in_window d t qs :
  most_recent_within d t qs (latest (filter (in_window (t - d) (t + d)) qs)).
Proof.
  pose proof (latest_spec (filter (in_window (t - d) (t + d)) qs)) as H.
  unfold most_recent_within.
  destruct (latest _) as [q|].
  - destruct H as [Hin Hmax]. apply list_elem_of_filter in Hin as [Hw Hin].
    apply Is_true_true, in_window_within in Hw.
    repeat split; try assumption; try apply Hw.
    intros q' Hq' Hw'. apply Hmax, list_elem_of_filter. split; [|assumption].
    apply Is_true_true, in_window_within, Hw'.
  - intros q' Hq' Hw'.
    assert (Hf : q' ∈ filter (in_window (t - d) (t + d)) qs).
    { apply list_elem_of_filter. split; [|assumption].
      apply Is_true_true, in_window_within, Hw'. }
    rewrite H in Hf. inversion Hf.
Qed.

(** ** The locator cascade *)

Lemma add_log_app a b w : add_log b (add_log a w) = add_log (a ++ b) w.
Proof. unfold add_log; cbn. rewrite app_assoc. reflexivity. Qed.

Lemma add_log_nil w : add_log [] w = w.
Proof. destruct w; unfold add_log; cbn. rewrite app_nil_r. reflexivity. Qed.

Lemma run_strategy_add_log s filename evs w :
  run_strategy s filename (add_log evs w) = run_strategy s filename w.
Proof. destruct s; reflexivity. Qed.

Lemma if_not_found_None s filename w :
  if_not_found None s filename w = (run_strategy s filename w, add_log [EvTry s] w).
Proof.
  unfold if_not_found, bind, tell, query. rewrite run_strategy_add_log.
  destruct (run_strategy s filename w); reflexivity.
Qed.

Lemma if_not_found_Some q s filename w :
  if_not_found (Some q) s filename w = (Ok (Some q), w).
Proof. reflexivity. Qed.

(** The cascade of the source is the first-success cascade over
    [strategy_order], and it enters exactly the strategies up to the one
    that answers. *)
Lemma locate_first_success filename w :
  locate filename w =
  (fst (first_success strategy_order filename w),
   add_log (snd (first_success strategy_order filename w)) w).
Proof.
  unfold locate, strategy_order.
  change (tell (EvTry SExact);;; query (exactMatch filename))
    with (if_not_found None SExact filename).
  unfold bind at 1. rewrite if_not_found_None. cbn [first_success].
  destruct (run_strategy SExact filename w) as [[q|]|e];
    [unfold bind, ret; rewrite !if_not_found_Some; reflexivity | | reflexivity].
  unfold bind at 1. rewrite if_not_found_None, run_strategy_add_log, add_log_app.
  destruct (run_strategy SFuzzy filename w) as [[q|]|e];
    [unfold bind, ret; rewrite !if_not_found_Some; reflexivity | | reflexivity].
  unfold bind at 1. rewrite if_not_found_None, run_strategy_add_log, add_log_app.
  destruct (run_strategy SInquiry filename w) as [[q|]|e];
    [unfold bind, ret; rewrite !if_not_found_Some; reflexivity | | reflexivity].
  unfold bind at 1. rewrite if_not_found_None, run_strategy_add_log, add_log_app.
  destruct (run_strategy STimestamp filename w) as [[q|]|e];
    [unfold bind, ret; rewrite !if_not_found_Some; reflexivity | | reflexivity].
  unfold bind at 1. rewrite if_not_found_None, run_strategy_add_log, add_log_app.
  destruct (run_strategy SGenerated filename w) as [[q|]|e]; reflexivity.
Qed.

Lemma first_success_skip ss1 : forall ss2 filename w,
  Forall (fun s => run_strategy s filename w = Ok None) ss1 ->
  first_success (ss1 ++ ss2) filename w =
  (fst (first_success ss2 filename w),
   map EvTry ss1 ++ snd (first_success ss2 filename w)).
Proof.
  induction ss1 as [|s ss1 IH]; intros ss2 filename w Hall.
  - cbn. destruct (first_success ss2 filename w); reflexivity.
  - inversion Hall as [|? ? Hs Hall']; subst.
    cbn [app first_success map]. rewrite Hs, (IH ss2 filename w Hall'). reflexivity.
Qed.

Lemma first_success_found s ss filename w q :
  run_strategy s filename w = Ok (Some q) ->
  first_success (s :: ss) filename w = (Ok (Some q), [EvTry s]).
Proof. intros H. cbn [first_success]. rewrite H. reflexivity. Qed.

(** C1.  The locator applies exact pointer match, fuzzy pointer match,
    embedded inquiry number, and the two timestamp windows in this order and
    stops at the first that finds a document: when the strategy at position
    [k] finds [q] and every earlier one found nothing, the locator answers
    [q] and has entered the strategies up to position [k] and no later one,
    whatever the later ones would find. *)
Theorem locate_stops_at_first_success filename w k s q :
  strategy_order !! k = Some s ->
  Forall (fun s' => run_strategy s' filename w = Ok None) (take k strategy_order) ->
  run_strategy s filename w = Ok (Some q) ->
  locate filename w = (Ok (Some q), add_log (map EvTry (take (S k) strategy_order)) w).
Proof.
  intros Hk Hearlier Hs.
  rewrite locate_first_success.
  rewrite <- (take_drop k strategy_order) at 1 2.
  rewrite (first_success_skip _ _ _ _ Hearlier).
  rewrite (drop_S _ _ _ Hk), (first_success_found _ _ _ _ _ Hs).
  cbn [fst snd]. rewrite (take_S_r _ _ _ Hk), map_app. reflexivity.
Qed.

(** The third strategy tries the inquiry's identifier first and the inquiry
    number second as the stored [inquiryId]. *)
Lemma inquiryNumberSearch_forms filename w m inq :
  js_match re_inquiry filename = Some m ->
  findOne (fun i => String.eqb (inquiryNumber i) (l2s (default [] (cap 1 m)))) (inquiries w)
    = Some inq ->
  inquiryNumberSearch filename w =
  Ok (match findOne (fun q => String.eqb (inquiryId q) (i_id inq)) (quotations w) with
      | Some q => Some q
      | None =>
          findOne (fun q => String.eqb (inquiryId q) (l2s (default [] (cap 1 m))))
            (quotations w)
      end).
Proof.
  intros Hm Hi. unfold inquiryNumberSearch. rewrite Hm, Hi.
  destruct (findOne _ (quotations w)); reflexivity.
Qed.

(** ** The handler *)

Section HandlerFacts.

Variable generateQuotationPDF :
  Inquiry -> PdfQuotationData -> Z -> gset string -> Result (PdfResult * gset string).
Variable ObjectId_isValid : string -> bool.

Local Abbreviation handle := (handleQuotationPDF generateQuotationPDF ObjectId_isValid).
Local Abbreviation regen := (regenerate generateQuotationPDF ObjectId_isValid).
Local Abbreviation findInq := (findInquiry ObjectId_isValid).
Local Abbreviation reaches := (reaches_build ObjectId_isValid).


(** The rebuild path, outcome by outcome. *)
Lemma regenerate_eq filename d w :
  regen filename d w =
  let w1 := add_log (snd (first_success strategy_order filename w)) w in
  match fst (first_success strategy_order filename w) with
  | Threw e => (Threw e, w1)
  | Ok None => (Ok (Json 404 (notFoundBody filename)), w1)
  | Ok (Some q) =>
      match findInq q w with
      | Threw e => (Threw e, w1)
      | Ok None =>
          (Ok (Json 404 [("success", JBool false);
                         ("message", JStr "Inquiry not found for quotation");
                         ("quotationId", JStr (q_id q));
                         ("inquiryId", JStr (inquiryId q))]), w1)
      | Ok (Some inq) =>
          match generateQuotationPDF inq (pdfQuotationData q inq (now w)) (now w) (files w) with
          | Threw e => (Threw e, add_log [EvGenerate (i_id inq)] w1)
          | Ok (res, fs') =>
              let w2 := set_files fs' (add_log [EvGenerate (i_id inq)] w1) in
              if bool_decide (filePath res ∈ fs') then
                if String.eqb (fileName res) filename
                then (Ok (SendFile d (fileName res) (filePath res)), w2)
                else (Ok (SendFile d (fileName res) (filePath res)),
                      add_log [EvSave (q_id q)]
                        (set_quotations (with_pointer (fileName res) q (quotations w)) w2))
              else
                (Ok (Json 500 [("success", JBool false);
                               ("message", JStr "PDF generation failed - file not created");
                               ("path", JStr (filePath res))]), w2)
          end
      end
  end.
Proof.
  unfold regenerate. unfold bind at 1. rewrite locate_first_success.
  destruct (fst (first_success strategy_order filename w)) as [[q|]|e]; try reflexivity.
  unfold bind at 1, query at 1.
  change (findInq q (add_log _ w)) with (findInq q w).
  destruct (findInq q w) as [[inq|]|e]; try reflexivity.
  unfold bind at 1, query at 1. unfold bind at 1, generate.
  change (now (add_log _ w)) with (now w). change (files (add_log _ w)) with (files w).
  destruct (generateQuotationPDF inq _ (now w) (files w)) as [[res fs']|e]; [|reflexivity].
  unfold bind at 1, query at 1, existsSync.
  cbn [files set_files].
  destruct (bool_decide (filePath res ∈ fs')); cbn [negb]; [|reflexivity].
  destruct (String.eqb (fileName res) filename); reflexivity.
Qed.


(** A successful rebuild, read backwards. *)
Lemma rebuild_inv filename dl w d name path w' :
  existsSync w (quotationPath filename) = false ->
  handle filename dl w = (SendFile d name path, w') ->
  exists q inq fs',
    fst (first_success strategy_order filename w) = Ok (Some q)
    /\ findInq q w = Ok (Some inq)
    /\ generateQuotationPDF inq (pdfQuotationData q inq (now w)) (now w) (files w)
       = Ok ({| fileName := name; filePath := path |}, fs')
    /\ path ∈ fs'
    /\ d = disposition_of dl
    /\ w' =
       let w2 := set_files fs'
                   (add_log (snd (first_success strategy_order filename w)
                             ++ [EvGenerate (i_id inq)]) w) in
       if String.eqb name filename then w2
       else add_log [EvSave (q_id q)]
              (set_quotations (with_pointer name q (quotations w)) w2).
Proof.
  intros Hmiss. unfold handleQuotationPDF. rewrite Hmiss, regenerate_eq. cbv zeta.
  destruct (fst (first_success strategy_order filename w)) as [[q|]|e] eqn:Hloc;
    cbn [caught]; try discriminate.
  destruct (findInq q w) as [[inq|]|e] eqn:Hinq; cbn [caught]; try discriminate.
  destruct (generateQuotationPDF inq _ (now w) (files w)) as [[res fs']|e] eqn:Hgen;
    cbn [caught]; try discriminate.
  destruct (bool_decide (filePath res ∈ fs')) eqn:Hex; cbn [caught]; try discriminate.
  apply bool_decide_eq_true in Hex.
  destruct res as [n p]; cbn [fileName filePath] in *.
  destruct (String.eqb n filename) eqn:Hn; cbn [caught]; intros [= <- <- <- <-];
    exists q, inq, fs'; rewrite add_log_app; cbv zeta; rewrite Hn;
    repeat split; solve [assumption | reflexivity].
Qed.



(** The rebuild path extends the log, with one invocation of the PDF
    service exactly when it resolves. *)
Lemma regenerate_log filename d w :
  exists evs,
    log (snd (caught (regen filename d w))) = log w ++ evs
    /\ count_events is_generate evs
       = (if resolves ObjectId_isValid filename w then 1 else 0)%nat.
Proof.
  unfold resolves. rewrite regenerate_eq, locate_first_success. cbn [fst]. cbv zeta.
  assert (Htry : forall ss, count_events is_generate (snd (first_success ss filename w)) = 0%nat).
  { induction ss as [|s ss IH]; [reflexivity|]. cbn [first_success].
    destruct (run_strategy s filename w) as [[q|]|e]; try reflexivity.
    destruct (first_success ss filename w) as [r evs]. exact IH. }
  specialize (Htry strategy_order).
  unfold count_events in *.
  destruct (fst (first_success strategy_order filename w)) as [[q|]|e];
    cbn [caught snd log add_log]; try (eexists; split; [reflexivity | exact Htry]).
  destruct (findInq q w) as [[inq|]|e];
    cbn [caught snd log add_log]; try (eexists; split; [reflexivity | exact Htry]).
  assert (Hone : length (filter is_generate
                  (snd (first_success strategy_order filename w) ++ [EvGenerate (i_id inq)]))
                 = 1%nat).
  { rewrite filter_app, length_app, Htry. reflexivity. }
  destruct (generateQuotationPDF inq _ (now w) (files w)) as [[res fs']|e];
    cbn [caught snd log add_log set_files].
  2:{ eexists; split; [rewrite <- app_assoc; reflexivity | exact Hone]. }
  destruct (bool_decide (filePath res ∈ fs')); cbn [caught snd log add_log set_files].
  2:{ eexists; split; [rewrite <- app_assoc; reflexivity | exact Hone]. }
  destruct (String.eqb (fileName res) filename);
    cbn [caught snd log add_log set_files set_quotations].
  - eexists; split; [rewrite <- app_assoc; reflexivity | exact Hone].
  - eexists; split; [rewrite <- !app_assoc; reflexivity |].
    rewrite app_assoc, filter_app, length_app, Hone. reflexivity.
Qed.

(** Every request extends the log, with one invocation of the PDF service
    exactly when it reaches the build. *)
Lemma handle_log filename dl w :
  exists evs,
    log (snd (handle filename dl w)) = log w ++ evs
    /\ count_events is_generate evs = (if reaches filename w then 1 else 0)%nat.
Proof.
  unfold handleQuotationPDF, reaches_build.
  destruct (existsSync w (quotationPath filename)) eqn:Hhit; cbn [negb andb].
  - exists []. cbn [snd]. rewrite app_nil_r. split; reflexivity.
  - apply regenerate_log.
Qed.


End HandlerFacts.

(** ** The pointer and the store *)

Lemma find_elem {A : Type} (p : A -> bool) (l : list A) (x : A) :
  List.find p l = Some x -> x ∈ l /\ p x = true.
Proof.
  intros H. apply find_some in H as [Hin Hp]. split; [|exact Hp].
  apply list_elem_of_In, Hin.
Qed.

Lemma findLatest_elem gte lte w q :
  findLatestCreatedBetween gte lte w = Ok (Some q) -> q ∈ quotations w.
Proof.
  unfold findLatestCreatedBetween.
  destruct (valid_date gte && valid_date lte); [|discriminate].
  intros [= H]. pose proof (latest_spec (filter (in_window gte lte) (quotations w))) as Hs.
  rewrite H in Hs. destruct Hs as [Hin _].
  apply list_elem_of_filter in Hin. tauto.
Qed.

(** A strategy answers with a stored document. *)
Lemma run_strategy_elem s filename w q :
  run_strategy s filename w = Ok (Some q) -> q ∈ quotations w.
Proof.
  destruct s; cbn [run_strategy].
  - unfold exactMatch, findOne. intros [= H]. apply find_elem in H. tauto.
  - unfold partialMatch, findOne. destruct (compile _); [|discriminate].
    intros [= H]. apply find_elem in H. tauto.
  - unfold inquiryNumberSearch, findOne.
    destruct (js_match re_inquiry filename); [|discriminate].
    destruct (List.find _ (inquiries w)); [|discriminate].
    destruct (List.find _ (quotations w)) eqn:E1.
    + intros [= <-]. apply find_elem in E1. tauto.
    + intros [= H]. apply find_elem in H. tauto.
  - unfold timestampSearch. destruct (js_match re_timestamp filename); [|discriminate].
    apply findLatest_elem.
  - unfold generatedTimestampSearch. destruct (js_match re_generated filename); [|discriminate].
    apply findLatest_elem.
Qed.

Lemma first_success_elem ss : forall filename w q,
  fst (first_success ss filename w) = Ok (Some q) -> q ∈ quotations w.
Proof.
  induction ss as [|s ss IH]; intros filename w q; cbn [first_success]; [discriminate|].
  destruct (run_strategy s filename w) as [[q0|]|e] eqn:E; cbn [fst].
  - intros [= <-]. eapply run_strategy_elem, E.
  - specialize (IH filename w q). destruct (first_success ss filename w). exact IH.
  - discriminate.
Qed.

Lemma with_pointer_elem name q qs :
  q ∈ qs -> set_quotationPdf name q ∈ with_pointer name q qs.
Proof.
  intros Hin. unfold with_pointer. apply list_elem_of_fmap.
  exists q. rewrite String.eqb_refl. split; [reflexivity | exact Hin].
Qed.

Section PointerFacts.

Variable generateQuotationPDF :
  Inquiry -> PdfQuotationData -> Z -> gset string -> Result (PdfResult * gset string).
Variable ObjectId_isValid : string -> bool.

Local Abbreviation handle := (handleQuotationPDF generateQuotationPDF ObjectId_isValid).
Local Abbreviation regen := (regenerate generateQuotationPDF ObjectId_isValid).
Local Abbreviation findInq := (findInquiry ObjectId_isValid).
Local Abbreviation reaches := (reaches_build ObjectId_isValid).


(** The collection changes only on the path that saves, and that path is
    taken only after the generated file was found in the store. *)
Lemma quotations_changed_inv filename dl w :
  quotations (snd (handle filename dl w)) <> quotations w ->
  exists d name path,
    fst (handle filename dl w) = SendFile d name path
    /\ name <> filename
    /\ existsSync (snd (handle filename dl w)) path = true.
Proof.
  unfold handleQuotationPDF.
  destruct (existsSync w (quotationPath filename)); [cbn; congruence|].
  rewrite regenerate_eq. cbv zeta.
  destruct (fst (first_success strategy_order filename w)) as [[q|]|e];
    cbn [caught snd quotations add_log]; try congruence.
  destruct (findInq q w) as [[inq|]|e];
    cbn [caught snd quotations add_log]; try congruence.
  destruct (generateQuotationPDF inq _ (now w) (files w)) as [[res fs']|e];
    cbn [caught snd quotations add_log set_files]; try congruence.
  destruct (bool_decide (filePath res ∈ fs')) eqn:Hex;
    cbn [caught snd quotations add_log set_files]; try congruence.
  destruct (String.eqb (fileName res) filename) eqn:Hn;
    cbn [caught fst snd quotations add_log set_files set_quotations]; try congruence.
  intros _. exists (disposition_of dl), (fileName res), (filePath res).
  split; [reflexivity|]. split.
  - apply String.eqb_neq, Hn.
  - unfold existsSync. cbn [files]. exact Hex.
Qed.


(** C4, as the code has it.  With a PDF service that reports the store path
    of the name it generates: after a successful rebuild in which the pointer
    is rewritten (the generated name differs from the requested filename), or
    in which the quotation was found by the exact pointer match, the located
    quotation is stored with a pointer that names a file of the store. *)
Theorem rewritten_pointer_names_existing_file filename dl w d name path w' :
  (forall inq data t fs res fs',
      generateQuotationPDF inq data t fs = Ok (res, fs') ->
      filePath res = quotationPath (fileName res)) ->
  existsSync w (quotationPath filename) = false ->
  handle filename dl w = (SendFile d name path, w') ->
  name <> filename \/ (exists q, exactMatch filename w = Ok (Some q)) ->
  exists q q',
    fst (locate filename w) = Ok (Some q)
    /\ q' ∈ quotations w' /\ q_id q' = q_id q
    /\ quotationPdf q' = Some name
    /\ existsSync w' (quotationPath name) = true.
Proof.
  intros Hcontract Hmiss Hres Hcase.
  destruct (rebuild_inv _ _ _ _ _ _ _ _ _ Hmiss Hres)
    as (q & inq & fs' & Hloc & Hinq & Hgen & Hex & Hd & Hw').
  pose proof (Hcontract _ _ _ _ _ _ Hgen) as Hpath. cbn [filePath fileName] in Hpath.
  pose proof (first_success_elem _ _ _ _ Hloc) as Hq.
  cbv zeta in Hw'. rewrite locate_first_success. cbn [fst].
  destruct (String.eqb name filename) eqn:Hn.
  - apply String.eqb_eq in Hn. subst name.
    destruct Hcase as [Hne|(q0 & Hexact)]; [congruence|].
    assert (q0 = q) as ->.
    { unfold strategy_order in Hloc. cbn [first_success run_strategy] in Hloc.
      rewrite Hexact in Hloc. cbn in Hloc. congruence. }
    exists q, q. subst w'. cbn [quotations files add_log set_files].
    unfold exactMatch, findOne in Hexact. injection Hexact as Hfind.
    apply find_elem in Hfind as [_ Hp]. apply bool_decide_eq_true in Hp.
    split; [exact Hloc|]. split; [exact Hq|]. split; [reflexivity|]. split; [exact Hp|].
    unfold existsSync. cbn [files]. rewrite <- Hpath. apply bool_decide_eq_true, Hex.
  - exists q, (set_quotationPdf name q). subst w'.
    cbn [quotations files add_log set_files set_quotations].
    split; [exact Hloc|]. split; [apply with_pointer_elem, Hq|].
    split; [reflexivity|]. split; [reflexivity|].
    unfold existsSync. cbn [files]. rewrite <- Hpath. apply bool_decide_eq_true, Hex.
Qed.

(** In the older route the quotation is found by the exact pointer match
    only, so there the requested filename is the stored pointer, and a
    generated name that differs from the stored pointer is saved. *)
Lemma legacy_pointer_updated filename w d name path w' :
  existsSync w (quotationPath filename) = false ->
  legacyRoute generateQuotationPDF filename w = (SendFile d name path, w') ->
  exists q,
    exactMatch filename w = Ok (Some q)
    /\ quotationPdf q = Some filename
    /\ (quotationPdf q <> Some name ->
        quotations w' = with_pointer name q (quotations w)).
Proof.
  intros Hmiss. unfold legacyRoute, legacyRegenerate. rewrite Hmiss.
  unfold bind at 1, query at 1.
  destruct (exactMatch filename w) as [[q|]|e] eqn:Hq; try discriminate.
  unfold bind at 1, query at 1.
  destruct (findOne _ (inquiries w)) as [inq|]; try discriminate.
  unfold bind at 1, query at 1. unfold bind at 1, generate.
  destruct (generateQuotationPDF inq _ (now w) (files w)) as [[res fs']|e];
    try discriminate.
  assert (Hptr : quotationPdf q = Some filename).
  { unfold exactMatch, findOne in Hq. injection Hq as Hq.
    apply find_elem in Hq as [_ Hp]. apply bool_decide_eq_true in Hp. exact Hp. }
  destruct (String.eqb (fileName res) filename) eqn:Hn; cbn [negb];
    unfold bind, save, ret; intros [= <- <- <- <-]; exists q;
    (split; [reflexivity|]); (split; [exact Hptr|]); intros Hne.
  - apply String.eqb_eq in Hn. congruence.
  - reflexivity.
Qed.

End PointerFacts.

(** ** Timestamp proximity *)

Lemma all_digits_Forall ts :
  all_digits ts = true -> Forall (fun c => is_digit c = true) ts.
Proof.
  induction ts as [|c ts IH]; cbn; intros H; constructor.
  - apply andb_true_iff in H. tauto.
  - apply IH. apply andb_true_iff in H. tauto.
Qed.

Lemma has_char_false c l : has_char c l = false -> c ∉ l.
Proof.
  induction l as [|a l IH]; cbn; intros H.
  - apply not_elem_of_nil.
  - apply orb_false_iff in H as [Ha Hl]. apply not_elem_of_cons. split.
    + apply Ascii.eqb_neq, Ha.
    + apply IH, Hl.
Qed.

Lemma digits_no_underscore ts :
  Forall (fun c => is_digit c = true) ts -> "_"%char ∉ ts.
Proof.
  induction 1 as [|c ts Hc _ IH]; [apply not_elem_of_nil|].
  apply not_elem_of_cons. split; [|exact IH].
  intros <-. discriminate Hc.
Qed.

Lemma digit_val_nonneg c : is_digit c = true -> 0 <= digit_val c.
Proof.
  unfold is_digit, digit_val. intros H. apply andb_true_iff in H as [H _].
  apply Nat.leb_le in H. lia.
Qed.

Lemma fold_digits_nonneg ts :
  Forall (fun c => is_digit c = true) ts ->
  forall acc, 0 <= acc -> 0 <= fold_left (fun acc d => 10 * acc + digit_val d) ts acc.
Proof.
  induction 1 as [|c ts Hc _ IH]; intros acc Hacc; cbn [fold_left]; [exact Hacc|].
  apply IH. pose proof (digit_val_nonneg c Hc). lia.
Qed.

Lemma parseInt_nonneg ts : Forall (fun c => is_digit c = true) ts -> 0 <= parseInt ts.
Proof. intros H. apply fold_digits_nonneg; [exact H | lia]. Qed.

Lemma findLatest_valid d t w :
  0 <= t -> 0 <= d <= 10000 -> t + d <= MAX_DATE ->
  findLatestCreatedBetween (t - d) (t + d) w
  = Ok (latest (filter (in_window (t - d) (t + d)) (quotations w))).
Proof.
  intros Ht Hd Hmax. unfold findLatestCreatedBetween, valid_date.
  replace (Z.abs (t - d) <=? MAX_DATE) with true
    by (symmetry; apply Z.leb_le; unfold MAX_DATE in *; lia).
  replace (Z.abs (t + d) <=? MAX_DATE) with true
    by (symmetry; apply Z.leb_le; unfold MAX_DATE in *; lia).
  reflexivity.
Qed.


(** ** Shaping *)


(** Every successful rebuild handed exactly these rows to the PDF service. *)
Lemma rebuild_uses_shaped_rows gen isValid filename dl w d name path w' :
  existsSync w (quotationPath filename) = false ->
  handleQuotationPDF gen isValid filename dl w = (SendFile d name path, w') ->
  exists q inq fs',
    fst (locate filename w) = Ok (Some q)
    /\ findInquiry isValid q w = Ok (Some inq)
    /\ gen inq (pdfQuotationData q inq (now w)) (now w) (files w)
       = Ok ({| fileName := name; filePath := path |}, fs').
Proof.
  intros Hmiss Hres.
  destruct (rebuild_inv _ _ _ _ _ _ _ _ _ Hmiss Hres)
    as (q & inq & fs' & Hloc & Hinq & Hgen & _).
  exists q, inq, fs'. rewrite locate_first_success. auto.
Qed.

(** ** The fuzzy strategy is a literal search *)

Lemma find_ext_bool {A : Type} (f g : A -> bool) (l : list A) :
  (forall x, f x = g x) -> List.find f l = List.find g l.
Proof.
  intros H. induction l as [|x l IH]; [reflexivity|].
  cbn [List.find]. rewrite H, IH. reflexivity.
Qed.

Lemma regex_field_lits p field :
  regex_field (lits p REmpty) field =
  match field with
  | Some v => substring_ci p (s2l v)
  | None => false
  end.
Proof.
  destruct field as [v|]; [|reflexivity].
  unfold regex_field, rsearch. rewrite rsearch_from_lits_ci.
  destruct (substring_ci p (s2l v)); reflexivity.
Qed.

(** C10.  The escaped filename compiles to the sequence of its own
    characters as literals, whatever the filename, so the fuzzy strategy
    finds the first quotation whose pointer contains the filename as a
    substring up to letter case, and nothing in the filename acts as a
    regular-expression operator. *)
Theorem fuzzy_match_is_literal_substring filename w :
  compile (escapeRegExp (s2l filename)) = Some (lits (s2l filename) REmpty)
  /\ partialMatch filename w =
     Ok (findOne (fun q => match quotationPdf q with
                           | Some p => substring_ci (s2l filename) (s2l p)
                           | None => false
                           end) (quotations w)).
Proof.
  split; [apply compile_escaped|].
  unfold partialMatch, findOne. rewrite compile_escaped. f_equal.
  apply find_ext_bool. intros q. apply regex_field_lits.
Qed.

(** Without the escaping the filename would act as a pattern. *)
Example unescaped_dot_is_an_operator :
  regex_test true (s2l "a.c") (s2l "abc") = Some true
  /\ regex_test true (escapeRegExp (s2l "a.c")) (s2l "abc") = Some false
  /\ regex_test true (escapeRegExp (s2l "a.c")) (s2l "xA.Cx") = Some true.
Proof. vm_compute. repeat split. Qed.

(** ** The interceptor *)

Section InterceptorFacts.

Variable ready : Z -> bool.
Variable headersSent : Z -> Z -> bool.
Variable interval_first : bool.

Lemma tick_offsets_range : Forall (fun d => 0 < d < 5000) tick_offsets.
Proof.
  unfold tick_offsets. apply Forall_fmap, Forall_forall.
  intros k Hk. apply elem_of_seq in Hk. cbn. lia.
Qed.

Lemma checkHandler_cleared t st :
  interval_live st = false -> checkHandler ready t st = st.
Proof. intros H. unfold checkHandler. rewrite H. reflexivity. Qed.

Lemma fold_checkHandler_cleared t0 ds : forall st,
  interval_live st = false ->
  fold_left (fun st d => checkHandler ready (t0 + d) st) ds st = st.
Proof.
  induction ds as [|d ds IH]; intros st H; cbn [fold_left]; [reflexivity|].
  rewrite checkHandler_cleared by exact H. apply IH, H.
Qed.

(** The interval callbacks either all find the handler missing and change
    nothing, or the first that finds it calls it and clears the interval. *)
Lemma fold_checkHandler_live t0 ds : forall st,
  interval_live st = true ->
  (Forall (fun d => ready (t0 + d) = false) ds
   /\ fold_left (fun st d => checkHandler ready (t0 + d) st) ds st = st)
  \/ (exists d, d ∈ ds /\ ready (t0 + d) = true
      /\ fold_left (fun st d => checkHandler ready (t0 + d) st) ds st
         = {| handler_called := Some (t0 + d); interval_live := false;
              timeout_sent := timeout_sent st |}).
Proof.
  induction ds as [|d ds IH]; intros st Hlive; cbn [fold_left].
  - left. split; [constructor | reflexivity].
  - unfold checkHandler at 2 4. rewrite Hlive. cbn [andb].
    destruct (ready (t0 + d)) eqn:Hr.
    + right. exists d. split; [set_solver|]. split; [exact Hr|].
      apply fold_checkHandler_cleared. reflexivity.
    + destruct (IH st Hlive) as [[Hall Hst]|(d' & Hd' & Hr' & Hst)].
      * left. split; [constructor; assumption | exact Hst].
      * right. exists d'. split; [set_solver|]. split; assumption.
Qed.

(** C9.  A quotation-PDF request that arrives before the handler is
    registered is not left waiting: 5000 ms after its arrival the interval
    is cleared and either the timeout has answered 503 with the structured
    body, or the handler was called within the period and had already sent
    its headers; when the handler is not registered at any time of the
    period, the handler is never called and the answer is that 503. *)
Theorem interceptor_bounded_wait path t0 :
  String.prefix "/quotations/" path = true ->
  ready t0 = false ->
  exists st,
    quotationPDFInterceptor ready headersSent interval_first path t0
    = Waited (strip_prefix path) st
    /\ interval_live st = false
    /\ (timeout_sent st = Some (t0 + 5000, serviceUnavailable)
        \/ (exists tc, handler_called st = Some tc /\ t0 < tc <= t0 + 5000
                       /\ headersSent tc (t0 + 5000) = true))
    /\ ((forall t, t0 < t <= t0 + 5000 -> ready t = false) ->
        handler_called st = None
        /\ timeout_sent st = Some (t0 + 5000, serviceUnavailable)).
Proof.
  intros Hpath Hready. unfold quotationPDFInterceptor. rewrite Hpath, Hready.
  eexists. split; [reflexivity|]. unfold run_timers.
  set (st0 := {| handler_called := None; interval_live := true; timeout_sent := None |}).
  pose proof tick_offsets_range as Hrange. rewrite Forall_forall in Hrange.
  destruct (fold_checkHandler_live t0 tick_offsets st0 eq_refl)
    as [[Hall ->]|(d & Hd & Hr & ->)].
  - destruct interval_first.
    + unfold checkHandler, st0. cbn [interval_live andb].
      destruct (ready (t0 + 5000)) eqn:Hr5.
      * unfold onTimeout. cbn [handler_called interval_live timeout_sent].
        split; [reflexivity|]. split.
        -- destruct (headersSent (t0 + 5000) (t0 + 5000)) eqn:Hs.
           ++ right. exists (t0 + 5000). split; [reflexivity|]. split; [lia | exact Hs].
           ++ left. reflexivity.
        -- intros Hnever. rewrite Hnever in Hr5 by lia. discriminate.
      * unfold onTimeout. cbn [handler_called interval_live timeout_sent].
        split; [reflexivity|]. split; [left; reflexivity|]. intros _. split; reflexivity.
    + unfold onTimeout, st0. cbn [handler_called interval_live timeout_sent].
      split; [reflexivity|]. split; [left; reflexivity|]. intros _. split; reflexivity.
  - specialize (Hrange d Hd).
    rewrite checkHandler_cleared by reflexivity.
    replace (if interval_first then _ else _)
      with {| handler_called := Some (t0 + d); interval_live := false;
              timeout_sent := timeout_sent st0 |} by (destruct interval_first; reflexivity).
    unfold onTimeout. cbn [handler_called interval_live timeout_sent].
    split; [reflexivity|]. split.
    + destruct (headersSent (t0 + d) (t0 + 5000)) eqn:Hs.
      * right. exists (t0 + d). split; [reflexivity|]. split; [lia | exact Hs].
      * left. reflexivity.
    + intros Hnever. rewrite Hnever in Hr by lia. discriminate.
Qed.

End InterceptorFacts.

(** ** Concrete runs *)

Example inquiry_regex_captures :
  option_map (fun m => (cap 1 m, cap 2 m)) (js_match re_inquiry generated_name)
  = Some (Some (s2l "INQ251031789"), Some (s2l "1700000003000")).
Proof. vm_compute. reflexivity. Qed.

Example timestamp_regex_is_unanchored :
  option_map (cap 1) (js_match re_timestamp "old/quotation-42-quotation-43-x")
  = Some (Some (s2l "42")).
Proof. vm_compute. reflexivity. Qed.

Example generated_regex_needs_extension :
  js_match re_generated "quotation_INQ251031789_1700000003000" = None.
Proof. vm_compute. reflexivity. Qed.

(** A digit run beyond the range of dates: the query is rejected and the
    handler answers 500. *)
Example timestamp_out_of_range :
  fst (handle1 "quotation-99999999999999999-7421.pdf" None (world1 None))
  = Json 500 [("success", JBool false);
              ("message", JStr "Error regenerating PDF");
              ("error", JStr "Cast to date failed for value Invalid Date at path createdAt")].
Proof. vm_compute. reflexivity. Qed.

(** A rebuild through the exact match: the generated name is saved as the
    new pointer. *)
Example rebuild_rewrites_pointer :
  let r := handle1 generated_name None (world1 (Some generated_name)) in
  fst r = SendFile "inline" current_name (quotationPath current_name)
  /\ map quotationPdf (quotations (snd r)) = [Some current_name]
  /\ log (snd r) = [EvTry SExact; EvGenerate (i_id inquiry1);
                     EvSave (q_id (quotation1 None))].
Proof. vm_compute. repeat split. Qed.

Lemma stampedPdfService_reports_store_path inq data t fs res fs' :
  stampedPdfService inq data t fs = Ok (res, fs') ->
  filePath res = quotationPath (fileName res).
Proof. unfold stampedPdfService. intros [= <- _]. reflexivity. Qed.

(** The truncated upload name is found by the fuzzy strategy, in second
    position, although the timestamp strategy would find the quotation too. *)
Lemma locate_stops_at_first_success_witness :
  run_strategy STimestamp truncated_name (world1 (Some uploaded_name))
  = Ok (Some (quotation1 (Some uploaded_name)))
  /\ locate truncated_name (world1 (Some uploaded_name))
     = (Ok (Some (quotation1 (Some uploaded_name))),
        add_log [EvTry SExact; EvTry SFuzzy] (world1 (Some uploaded_name))).
Proof.
  split; [vm_compute; reflexivity|].
  apply (locate_stops_at_first_success truncated_name (world1 (Some uploaded_name))
           1%nat SFuzzy (quotation1 (Some uploaded_name))).
  - reflexivity.
  - constructor; [vm_compute; reflexivity | constructor].
  - vm_compute; reflexivity.
Defined.






Lemma rewritten_pointer_names_existing_file_witness :
  existsSync (world1 (Some generated_name)) (quotationPath generated_name) = false
  /\ exists q q',
       fst (locate generated_name (world1 (Some generated_name))) = Ok (Some q)
       /\ q' ∈ quotations (snd (handle1 generated_name None (world1 (Some generated_name))))
       /\ q_id q' = q_id q
       /\ quotationPdf q' = Some current_name
       /\ existsSync (snd (handle1 generated_name None (world1 (Some generated_name))))
            (quotationPath current_name) = true.
Proof.
  split; [vm_compute; reflexivity|].
  apply (rewritten_pointer_names_existing_file stampedPdfService hex24 generated_name None
           (world1 (Some generated_name))
           "inline" current_name (quotationPath current_name)).
  - exact stampedPdfService_reports_store_path.
  - vm_compute; reflexivity.
  - vm_compute; reflexivity.
  - left. intros H. vm_compute in H. discriminate H.
Defined.

Lemma interceptor_bounded_wait_witness :
  String.prefix "/quotations/" "/quotations/quotation-1.pdf" = true
  /\ exists st,
       quotationPDFInterceptor (fun _ => false) (fun _ _ => false) true
         "/quotations/quotation-1.pdf" 0
       = Waited "quotation-1.pdf" st
       /\ handler_called st = None
       /\ timeout_sent st = Some (5000, serviceUnavailable).
Proof.
  split; [reflexivity|].
  destruct (interceptor_bounded_wait (fun _ => false) (fun _ _ => false) true
              "/quotations/quotation-1.pdf" 0 eq_refl eq_refl)
    as (st & Heq & _ & _ & Hnever).
  exists st. split; [exact Heq|]. apply Hnever. intros t _. reflexivity.
Defined.



(** C4 fails on the code: after that successful rebuild the stored pointer
    names a file that the store does not have. *)
Lemma pointer_left_dangling_counterexample :
  let w := world1 (Some "quotation-1690000000000-1234.pdf") in
  let r := handle1 current_name None w in
  fst r = SendFile "inline" current_name (quotationPath current_name)
  /\ map quotationPdf (quotations (snd r)) = [Some "quotation-1690000000000-1234.pdf"]
  /\ existsSync (snd r) (quotationPath "quotation-1690000000000-1234.pdf") = false.
Proof. vm_compute. repeat split. Qed.

(** ** Further facts about the handler *)

Lemma first_success_tries ss : forall filename w,
  Forall (fun e => is_generate e = false /\ is_save e = false)
    (snd (first_success ss filename w)).
Proof.
  induction ss as [|s ss IH]; intros filename w; cbn [first_success]; [constructor|].
  destruct (run_strategy s filename w) as [[q|]|e]; cbn [snd];
    try (constructor; [split; reflexivity | constructor]).
  specialize (IH filename w). destruct (first_success ss filename w) as [r evs].
  cbn [snd] in *. constructor; [split; reflexivity | exact IH].
Qed.

Lemma NoDup_map_inj {A B : Type} (f : A -> B) (l : list A) x y :
  NoDup (map f l) -> x ∈ l -> y ∈ l -> f x = f y -> x = y.
Proof.
  induction l as [|a l IH]; intros Hnd Hx Hy Hf; [inversion Hx|].
  cbn [map] in Hnd. apply NoDup_cons in Hnd as [Ha Hnd].
  assert (Hin : forall z, z ∈ l -> f z ∈ map f l).
  { intros z Hz. apply list_elem_of_In, in_map, list_elem_of_In, Hz. }
  apply elem_of_cons in Hx as [->|Hx]; apply elem_of_cons in Hy as [->|Hy].
  - reflexivity.
  - exfalso. apply Ha. rewrite Hf. apply Hin, Hy.
  - exfalso. apply Ha. rewrite <- Hf. apply Hin, Hx.
  - apply IH; assumption.
Qed.

(** With distinct identifiers, saving the located quotation under a new
    pointer changes nothing but that pointer. *)
Lemma with_pointer_forget name q qs :
  NoDup (map q_id qs) -> q ∈ qs ->
  map forget_pointer (with_pointer name q qs) = map forget_pointer qs.
Proof.
  intros Hnd Hq. unfold with_pointer. rewrite map_map. apply map_ext_in.
  intros q' Hq'. apply list_elem_of_In in Hq'.
  destruct (String.eqb (q_id q') (q_id q)) eqn:E; [|reflexivity].
  apply String.eqb_eq in E.
  rewrite (NoDup_map_inj q_id qs q' q Hnd Hq' Hq E). reflexivity.
Qed.

Section MoreHandlerFacts.

Variable generateQuotationPDF :
  Inquiry -> PdfQuotationData -> Z -> gset string -> Result (PdfResult * gset string).
Variable ObjectId_isValid : string -> bool.

Local Abbreviation handle := (handleQuotationPDF generateQuotationPDF ObjectId_isValid).
Local Abbreviation findInq := (findInquiry ObjectId_isValid).

(** Case analysis along the branches of the handler. *)
Ltac handler_cases filename w :=
  unfold handleQuotationPDF;
  destruct (existsSync w (quotationPath filename)) eqn:Hhit;
  [ | rewrite regenerate_eq; cbv zeta;
      destruct (fst (first_success strategy_order filename w)) as [[q|]|e] eqn:Hloc;
      [ destruct (findInq q w) as [[inq|]|e] eqn:Hinq;
        [ destruct (generateQuotationPDF inq (pdfQuotationData q inq (now w)) (now w)
                      (files w)) as [[res fs']|e] eqn:Hgen;
          [ destruct (bool_decide (filePath res ∈ fs')) eqn:Hex;
            [ destruct (String.eqb (fileName res) filename) eqn:Hn | ] | ] | | ] | | ] ];
  cbn [caught fst snd serveExisting].

(** No request deletes, adds or reorders documents or touches an inquiry,
    and of the fields of a quotation held here (identifier, inquiry
    reference, amount, items, status, validity, terms, creation date) none
    but the pointer is changed: with distinct identifiers, the collection
    after the request equals the collection before it up to [quotationPdf].
    In particular the workflow status of every quotation is as before. *)
Theorem request_changes_only_the_pointer filename dl w :
  NoDup (map q_id (quotations w)) ->
  inquiries (snd (handle filename dl w)) = inquiries w
  /\ now (snd (handle filename dl w)) = now w
  /\ map forget_pointer (quotations (snd (handle filename dl w)))
     = map forget_pointer (quotations w)
  /\ map status (quotations (snd (handle filename dl w))) = map status (quotations w).
Proof.
  intros Hnd.
  assert (Hstatus : forall l1 l2 : list Quotation,
            map forget_pointer l1 = map forget_pointer l2 -> map status l1 = map status l2).
  { intros l1 l2 H.
    change (map status l1) with (map (fun q => status (forget_pointer q)) l1).
    change (map status l2) with (map (fun q => status (forget_pointer q)) l2).
    rewrite <- (map_map forget_pointer status l1), <- (map_map forget_pointer status l2), H.
    reflexivity. }
  handler_cases filename w;
    cbn [inquiries now quotations add_log set_files set_quotations];
    try (repeat split; reflexivity).
  pose proof (first_success_elem _ _ _ _ Hloc) as Hq.
  pose proof (with_pointer_forget (fileName res) q (quotations w) Hnd Hq) as Hf.
  repeat split; [exact Hf | apply Hstatus, Hf].
Qed.


(** A located quotation whose [inquiryId] is a valid ObjectId but names no
    stored inquiry is answered 404 [Inquiry not found for quotation], even if
    an inquiry carries that text as its number: the lookup by number is tried
    only for references that are not valid ObjectIds.  The PDF service is not
    invoked and nothing is saved. *)
Theorem missing_inquiry_is_not_found filename dl w q :
  existsSync w (quotationPath filename) = false ->
  fst (locate filename w) = Ok (Some q) ->
  ObjectId_isValid (inquiryId q) = true ->
  Forall (fun i => i_id i <> inquiryId q) (inquiries w) ->
  exists evs,
    handle filename dl w
    = (Json 404 [("success", JBool false);
                 ("message", JStr "Inquiry not found for quotation");
                 ("quotationId", JStr (q_id q));
                 ("inquiryId", JStr (inquiryId q))],
       add_log evs w)
    /\ Forall (fun e => is_generate e = false /\ is_save e = false) evs.
Proof.
  intros Hmiss Hloc Hvalid Hnone.
  rewrite locate_first_success in Hloc. cbn [fst] in Hloc.
  assert (Hinq : findInq q w = Ok None).
  { unfold findInquiry, findOne. rewrite Hvalid. f_equal.
    induction Hnone as [|i l Hi _ IH]; [reflexivity|].
    cbn [List.find]. apply String.eqb_neq in Hi. rewrite Hi. exact IH. }
  exists (snd (first_success strategy_order filename w)).
  split; [|apply first_success_tries].
  unfold handleQuotationPDF. rewrite Hmiss, regenerate_eq. cbv zeta.
  rewrite Hloc, Hinq. reflexivity.
Qed.

(** When the PDF service rejects, the answer is 500 [Error regenerating
    PDF] with the service's message as [error]; the service was invoked once
    and nothing is saved. *)
Theorem builder_rejection_is_reported filename dl w q inq e :
  existsSync w (quotationPath filename) = false ->
  fst (locate filename w) = Ok (Some q) ->
  findInq q w = Ok (Some inq) ->
  generateQuotationPDF inq (pdfQuotationData q inq (now w)) (now w) (files w) = Threw e ->
  exists evs,
    handle filename dl w
    = (Json 500 [("success", JBool false);
                 ("message", JStr "Error regenerating PDF");
                 ("error", JStr e)],
       add_log (evs ++ [EvGenerate (i_id inq)]) w)
    /\ Forall (fun e => is_generate e = false /\ is_save e = false) evs.
Proof.
  intros Hmiss Hloc Hinq Hgen.
  rewrite locate_first_success in Hloc. cbn [fst] in Hloc.
  exists (snd (first_success strategy_order filename w)).
  split; [|apply first_success_tries].
  unfold handleQuotationPDF. rewrite Hmiss, regenerate_eq. cbv zeta.
  rewrite Hloc, Hinq, Hgen. cbn [caught]. rewrite add_log_app. reflexivity.
Qed.

(** Round trip: with a PDF service that reports the store path of the name
    it generates, the name served by a successful rebuild is answered from
    the store by the next request, from the same path and without any
    further step. *)
Theorem rebuilt_name_is_served_from_store filename dl w d name path w' dl2 :
  (forall inq data t fs res fs',
      generateQuotationPDF inq data t fs = Ok (res, fs') ->
      filePath res = quotationPath (fileName res)) ->
  existsSync w (quotationPath filename) = false ->
  handle filename dl w = (SendFile d name path, w') ->
  handle name dl2 w' = (SendFile (disposition_of dl2) name path, w').
Proof.
  intros Hcontract Hmiss Hres.
  destruct (rebuild_inv _ _ _ _ _ _ _ _ _ Hmiss Hres)
    as (q & inq & fs' & Hloc & Hinq & Hgen & Hex & Hd & Hw').
  pose proof (Hcontract _ _ _ _ _ _ Hgen) as Hpath. cbn [filePath fileName] in Hpath.
  assert (Hfiles : files w' = fs').
  { subst w'. cbv zeta. destruct (String.eqb name filename); reflexivity. }
  assert (Hhit : existsSync w' (quotationPath name) = true).
  { unfold existsSync. rewrite Hfiles, <- Hpath. apply bool_decide_eq_true, Hex. }
  unfold handleQuotationPDF. rewrite Hhit. unfold serveExisting. rewrite <- Hpath.
  reflexivity.
Qed.

(** On both paths the disposition of a served file follows the download
    flag alone: attachment exactly for [download=true] and [download=1]. *)
Theorem disposition_follows_download_flag filename dl w d name path :
  fst (handleQuotationPDF generateQuotationPDF ObjectId_isValid filename dl w) = SendFile d name path ->
  (d = "attachment" /\ (dl = Some "true" \/ dl = Some "1"))
  \/ (d = "inline" /\ dl <> Some "true" /\ dl <> Some "1").
Proof.
  intros H.
  assert (Hd : d = disposition_of dl).
  { revert H. handler_cases filename w; intros H; try discriminate H;
      injection H as <- _ _; reflexivity. }
  subst d. unfold disposition_of, shouldDownload.
  destruct dl as [v|]; [|right; repeat split; discriminate].
  destruct (String.eqb v "true") eqn:E1; cbn [orb].
  - apply String.eqb_eq in E1. subst v. left. split; [reflexivity | left; reflexivity].
  - apply String.eqb_neq in E1. destruct (String.eqb v "1") eqn:E2.
    + apply String.eqb_eq in E2. subst v. left. split; [reflexivity | right; reflexivity].
    + apply String.eqb_neq in E2. right. repeat split; congruence.
Qed.

(** The older route on a request it rebuilds. *)
Lemma legacyRoute_rebuild filename w q inq res fs' :
  existsSync w (quotationPath filename) = false ->
  exactMatch filename w = Ok (Some q) ->
  findOne (fun i => String.eqb (i_id i) (inquiryId q)) (inquiries w) = Some inq ->
  generateQuotationPDF inq (pdfQuotationData q inq (now w)) (now w) (files w)
  = Ok (res, fs') ->
  legacyRoute generateQuotationPDF filename w
  = (SendFile "inline" (fileName res) (filePath res),
     let w2 := set_files fs' (add_log [EvGenerate (i_id inq)] w) in
     if String.eqb (fileName res) filename then w2
     else add_log [EvSave (q_id q)]
            (set_quotations (with_pointer (fileName res) q (quotations w)) w2)).
Proof.
  intros Hmiss Hexact Hinq Hgen.
  unfold legacyRoute, legacyRegenerate. rewrite Hmiss.
  unfold bind at 1, query at 1. rewrite Hexact.
  unfold bind at 1, query at 1. rewrite Hinq.
  unfold bind at 1, query at 1. unfold bind at 1, generate. rewrite Hgen.
  cbv zeta. destruct (String.eqb (fileName res) filename); reflexivity.
Qed.

(** The newer handler agrees with the older route on the requests the older
    route could rebuild: when the quotation is found by the exact match and
    refers to its inquiry by a valid ObjectId, a successful rebuild by the
    handler is, in the older route, the same response (inline) and the same
    store and collections. *)
Theorem legacy_route_agrees_on_exact_match filename w q name path w' :
  exactMatch filename w = Ok (Some q) ->
  ObjectId_isValid (inquiryId q) = true ->
  existsSync w (quotationPath filename) = false ->
  handle filename None w = (SendFile "inline" name path, w') ->
  fst (legacyRoute generateQuotationPDF filename w) = SendFile "inline" name path
  /\ files (snd (legacyRoute generateQuotationPDF filename w)) = files w'
  /\ quotations (snd (legacyRoute generateQuotationPDF filename w)) = quotations w'
  /\ inquiries (snd (legacyRoute generateQuotationPDF filename w)) = inquiries w'.
Proof.
  intros Hexact Hvalid Hmiss Hres.
  destruct (rebuild_inv _ _ _ _ _ _ _ _ _ Hmiss Hres)
    as (q0 & inq & fs' & Hloc & Hinq & Hgen & Hex & Hd & Hw').
  assert (q0 = q) as ->.
  { unfold strategy_order in Hloc. cbn [first_success run_strategy] in Hloc.
    rewrite Hexact in Hloc. cbn in Hloc. congruence. }
  unfold findInquiry in Hinq. rewrite Hvalid in Hinq. injection Hinq as Hinq.
  rewrite (legacyRoute_rebuild filename w q inq _ fs' Hmiss Hexact Hinq Hgen).
  subst w'. cbv zeta. cbn [fileName filePath fst snd].
  destruct (String.eqb name filename);
    cbn [files quotations inquiries add_log set_files set_quotations];
    repeat split; reflexivity.
Qed.


End MoreHandlerFacts.

(** ** Further facts about the locator strategies *)

Lemma s2l_l2s l : s2l (l2s l) = l.
Proof. apply list_ascii_of_string_of_list_ascii. Qed.

Lemma l2s_s2l s : l2s (s2l s) = s.
Proof. apply string_of_list_ascii_of_string. Qed.

Lemma prefix_ci_case_variant a : forall b,
  map to_lower a = map to_lower b -> prefix_ci a b = true.
Proof.
  induction a as [|x a IH]; intros b H; [reflexivity|].
  destruct b as [|y b]; [discriminate H|].
  cbn [map] in H. injection H as Hxy Hab.
  cbn [prefix_ci]. unfold eqb_ci. rewrite Hxy, Ascii.eqb_refl. apply IH, Hab.
Qed.

Lemma partialMatch_find filename w :
  partialMatch filename w =
  Ok (List.find (fun q => match quotationPdf q with
                          | Some p => substring_ci (s2l filename) (s2l p)
                          | None => false
                          end) (quotations w)).
Proof.
  unfold partialMatch, findOne. rewrite compile_escaped. f_equal.
  apply find_ext_bool. intros q. apply regex_field_lits.
Qed.

(** A request that differs from a stored pointer only in the case of its
    letters is resolved by the fuzzy strategy, to a stored quotation whose
    pointer contains the requested name up to case (the first such document,
    which need not be the one the request was a variant of). *)
Theorem fuzzy_match_resolves_case_variants filename w q p :
  q ∈ quotations w ->
  quotationPdf q = Some p ->
  map to_lower (s2l p) = map to_lower (s2l filename) ->
  exists q' p',
    partialMatch filename w = Ok (Some q')
    /\ q' ∈ quotations w
    /\ quotationPdf q' = Some p'
    /\ substring_ci (s2l filename) (s2l p') = true.
Proof.
  intros Hq Hp Hcase. rewrite partialMatch_find.
  destruct (List.find _ (quotations w)) as [q'|] eqn:Hfind.
  - apply find_elem in Hfind as [Hin Hsub].
    destruct (quotationPdf q') as [p'|] eqn:Hp'; [|discriminate Hsub].
    exists q', p'. repeat split; assumption.
  - exfalso. apply list_elem_of_In in Hq.
    pose proof (find_none _ _ Hfind q Hq) as Hno. cbn in Hno. rewrite Hp in Hno.
    assert (Hsub : substring_ci (s2l filename) (s2l p) = true).
    { destruct (s2l p) eqn:E; cbn [substring_ci];
        rewrite prefix_ci_case_variant by (symmetry; exact Hcase); reflexivity. }
    congruence.
Qed.

(** The capture group [(INQ\d+)] followed by what the continuation takes. *)
Lemma rmatch_tagged_digits_group n0 i tag ds rest cp k x :
  ds <> [] ->
  Forall (fun c => is_digit c = true) ds ->
  hd_error rest = None \/ (exists c, hd_error rest = Some c /\ is_digit c = false) ->
  k rest ((i, tag ++ ds) :: cp) = Some x ->
  rmatch false n0 (RGroup i (lits tag (RSeq (RPlus (RChar CDigit)) REmpty)))
    (tag ++ ds ++ rest) cp k = Some x.
Proof.
  intros Hne Hall Hrest Hk. destruct ds as [|c ds]; [congruence|].
  change (rmatch false n0 (RGroup i (lits tag (RSeq (RPlus (RChar CDigit)) REmpty)))
            (tag ++ (c :: ds) ++ rest) cp k)
    with (rmatch false n0 (lits tag (RSeq (RPlus (RChar CDigit)) REmpty))
            (tag ++ (c :: ds) ++ rest) cp
            (fun s' cp' =>
               k s' ((i, firstn (length (tag ++ (c :: ds) ++ rest) - length s')
                           (tag ++ (c :: ds) ++ rest)) :: cp'))).
  rewrite rmatch_lits_prefix, rmatch_seq. cbn [app].
  apply (rmatch_plus_run n0 CDigit c ds rest cp); [exact Hall | exact Hrest |].
  cbn [rmatch].
  replace (length (tag ++ c :: ds ++ rest) - length rest)%nat
    with (length (tag ++ c :: ds))
    by (rewrite !length_app; cbn [length]; rewrite length_app; lia).
  replace (tag ++ c :: ds ++ rest) with ((tag ++ c :: ds) ++ rest)
    by (rewrite <- app_assoc; reflexivity).
  rewrite firstn_app, Nat.sub_diag, firstn_all. cbn [firstn]. rewrite app_nil_r.
  exact Hk.
Qed.

(** [quotation_INQ<digits>_<ts>.pdf]: the inquiry number and the timestamp
    are captured. *)
Lemma match_inquiry_shape filename ds ts :
  s2l filename = s2l "quotation_" ++ (s2l "INQ" ++ ds) ++ "_"%char :: ts ++ s2l ".pdf" ->
  ds <> [] -> Forall (fun c => is_digit c = true) ds ->
  ts <> [] -> Forall (fun c => is_digit c = true) ts ->
  js_match re_inquiry filename = Some [(2%nat, ts); (1%nat, s2l "INQ" ++ ds)].
Proof.
  intros Hshape Hd Hdd Ht Htd. unfold js_match, rsearch. rewrite Hshape.
  generalize (length (s2l "quotation_" ++ (s2l "INQ" ++ ds)
                        ++ "_"%char :: ts ++ s2l ".pdf")); intros n0.
  assert (H : rmatch_here false n0 re_inquiry
                (s2l "quotation_" ++ (s2l "INQ" ++ ds) ++ "_"%char :: ts ++ s2l ".pdf")
              = Some [(2%nat, ts); (1%nat, s2l "INQ" ++ ds)]).
  { unfold rmatch_here. rewrite re_inquiry_eq, rmatch_lits_prefix, rmatch_seq.
    rewrite <- app_assoc.
    apply rmatch_tagged_digits_group; try assumption.
    - right. exists "_"%char. split; reflexivity.
    - rewrite rmatch_seq, rmatch_char. cbn [cset_mem]. rewrite Ascii.eqb_refl, rmatch_seq.
      apply rmatch_digits_group; try assumption.
      + right. exists "."%char. split; reflexivity.
      + reflexivity. }
  destruct (s2l "quotation_" ++ (s2l "INQ" ++ ds) ++ "_"%char :: ts ++ s2l ".pdf");
    cbn [rsearch_from]; rewrite H; reflexivity.
Qed.

(** The third strategy resolves a generated name: when the name carries the
    number of a stored inquiry, the answer is the quotation that refers to
    that inquiry by identifier or, failing that, by number. *)
Theorem inquiry_number_strategy_resolves filename w ds ts inq q :
  s2l filename = s2l "quotation_" ++ (s2l "INQ" ++ ds) ++ "_"%char :: ts ++ s2l ".pdf" ->
  ds <> [] -> all_digits ds = true ->
  ts <> [] -> all_digits ts = true ->
  findOne (fun i => String.eqb (inquiryNumber i) (l2s (s2l "INQ" ++ ds))) (inquiries w)
  = Some inq ->
  match findOne (fun q => String.eqb (inquiryId q) (i_id inq)) (quotations w) with
  | Some q' => Some q'
  | None => findOne (fun q => String.eqb (inquiryId q) (l2s (s2l "INQ" ++ ds)))
              (quotations w)
  end = Some q ->
  inquiryNumberSearch filename w = Ok (Some q).
Proof.
  intros Hshape Hd Hdd Ht Htd Hinq Hq.
  apply all_digits_Forall in Hdd. apply all_digits_Forall in Htd.
  pose proof (match_inquiry_shape filename ds ts Hshape Hd Hdd Ht Htd) as Hm.
  rewrite (inquiryNumberSearch_forms filename w _ inq Hm); [f_equal; exact Hq|].
  exact Hinq.
Qed.

(** The strategy of the generated format reads the timestamp only: two
    generated names with the same timestamp get the same answer whatever their
    inquiry references, so a name with the number of another inquiry, or of
    none, resolves to the same quotation of the window. *)
Theorem generated_timestamp_ignores_reference f1 f2 ref1 ref2 ts w :
  s2l f1 = s2l "quotation_" ++ ref1 ++ "_"%char :: ts ++ s2l ".pdf" ->
  s2l f2 = s2l "quotation_" ++ ref2 ++ "_"%char :: ts ++ s2l ".pdf" ->
  ref1 <> [] -> has_char "_" ref1 = false ->
  ref2 <> [] -> has_char "_" ref2 = false ->
  ts <> [] -> all_digits ts = true ->
  generatedTimestampSearch f1 w = generatedTimestampSearch f2 w.
Proof.
  intros H1 H2 Hr1 Hu1 Hr2 Hu2 Ht Htd. apply all_digits_Forall in Htd.
  unfold generatedTimestampSearch.
  rewrite (match_generated_shape f1 ref1 ts H1 Hr1 (has_char_false _ _ Hu1) Ht Htd).
  rewrite (match_generated_shape f2 ref2 ts H2 Hr2 (has_char_false _ _ Hu2) Ht Htd).
  reflexivity.
Qed.

(** The strategy of the upload format reads the first digit run only: the
    random suffix of the name plays no part. *)
Theorem upload_timestamp_ignores_suffix f1 f2 rand1 rand2 ts w :
  s2l f1 = s2l "quotation-" ++ ts ++ "-"%char :: rand1 ->
  s2l f2 = s2l "quotation-" ++ ts ++ "-"%char :: rand2 ->
  ts <> [] -> all_digits ts = true ->
  timestampSearch f1 w = timestampSearch f2 w.
Proof.
  intros H1 H2 Ht Htd. apply all_digits_Forall in Htd.
  unfold timestampSearch.
  rewrite (match_timestamp_shape f1 ts rand1 H1 Ht Htd).
  rewrite (match_timestamp_shape f2 ts rand2 H2 Ht Htd).
  reflexivity.
Qed.

(** ** Document numbers *)

Lemma forall_range_sound P lo n :
  forall_range P lo n = true ->
  forall z, lo <= z < lo + Z.of_nat n -> P z = true.
Proof.
  unfold forall_range. intros H z Hz. rewrite forallb_forall in H.
  specialize (H (Z.to_nat (z - lo))).
  replace (lo + Z.of_nat (Z.to_nat (z - lo))) with z in H by lia.
  apply H, in_seq. lia.
Qed.

Lemma year_part y :
  1000 <= y <= 9999 -> digits_of_length 2 (slice_last 2 (toString y)) = true.
Proof.
  intros H.
  apply (forall_range_sound (fun y => digits_of_length 2 (slice_last 2 (toString y)))
           1000 (Z.to_nat 9000)); [vm_compute; reflexivity | lia].
Qed.

Lemma month_part m :
  0 <= m <= 11 -> digits_of_length 2 (padStart 2 "0" (toString (m + 1))) = true.
Proof.
  intros H.
  apply (forall_range_sound
           (fun m => digits_of_length 2 (padStart 2 "0" (toString (m + 1)))) 0 12);
    [vm_compute; reflexivity | lia].
Qed.

Lemma date_part d :
  1 <= d <= 31 -> digits_of_length 2 (padStart 2 "0" (toString d)) = true.
Proof.
  intros H.
  apply (forall_range_sound (fun d => digits_of_length 2 (padStart 2 "0" (toString d)))
           1 31); [vm_compute; reflexivity | lia].
Qed.

Lemma random_part r :
  0 <= r <= 999 ->
  digits_of_length 3 (padStart 3 "0" (toString r)) = true
  /\ parseInt (padStart 3 "0" (toString r)) = r.
Proof.
  intros H.
  pose proof (forall_range_sound
                (fun r => digits_of_length 3 (padStart 3 "0" (toString r))
                          && (parseInt (padStart 3 "0" (toString r)) =? r)) 0 1000) as Hr.
  specialize (Hr ltac:(vm_compute; reflexivity) r ltac:(lia)).
  apply andb_true_iff in Hr as [H1 H2]. apply Z.eqb_eq in H2. split; assumption.
Qed.

Lemma digits_of_length_spec k l :
  digits_of_length k l = true -> length l = k /\ all_digits l = true.
Proof.
  unfold digits_of_length. intros H. apply andb_true_iff in H as [H1 H2].
  apply Nat.eqb_eq in H1. split; assumption.
Qed.

(** The digits that follow the tag of a generated number. *)
Lemma generateNumber_digits tag y m d r :
  date_parts_ok y m d r ->
  exists ds,
    s2l (generateNumber tag y m d r) = s2l tag ++ ds
    /\ length ds = 9%nat
    /\ all_digits ds = true.
Proof.
  intros (Hy & Hm & Hd & Hr).
  destruct (digits_of_length_spec _ _ (year_part y Hy)) as [Ly Dy].
  destruct (digits_of_length_spec _ _ (month_part m Hm)) as [Lm Dm].
  destruct (digits_of_length_spec _ _ (date_part d Hd)) as [Ld Dd].
  destruct (digits_of_length_spec _ _ (proj1 (random_part r Hr))) as [Lr Dr].
  eexists. unfold generateNumber. rewrite s2l_l2s. split; [reflexivity|]. split.
  - rewrite !length_app, Ly, Lm, Ld, Lr. reflexivity.
  - unfold all_digits in *. rewrite !forallb_app, Dy, Dm, Dd, Dr. reflexivity.
Qed.

(** The number a hook generates is the tag followed by exactly nine digits
    (year, month, day, three-digit draw); with the three-letter tags of the
    schemas it has twelve characters. *)
Theorem generated_number_format tag y m d r :
  date_parts_ok y m d r ->
  exists ds,
    s2l (generateNumber tag y m d r) = s2l tag ++ ds
    /\ length ds = 9%nat
    /\ all_digits ds = true.
Proof.
  intros Hparts. exact (generateNumber_digits tag y m d r Hparts).
Qed.

(** The inquiry number a hook generates is the one the handler reads back
    from a generated filename [quotation_<number>_<ts>.pdf]. *)
Theorem generated_inquiry_number_is_recognised y m d r ts filename :
  date_parts_ok y m d r ->
  ts <> [] -> all_digits ts = true ->
  s2l filename
  = s2l "quotation_" ++ s2l (generateNumber "INQ" y m d r) ++ "_"%char :: ts ++ s2l ".pdf" ->
  js_match re_inquiry filename
  = Some [(2%nat, ts); (1%nat, s2l (generateNumber "INQ" y m d r))].
Proof.
  intros Hparts Ht Htd Hshape.
  destruct (generateNumber_digits "INQ" y m d r Hparts) as (ds & Hds & Hlen & Hdig).
  rewrite Hds in *.
  apply match_inquiry_shape; try assumption.
  - intros ->. discriminate Hlen.
  - apply all_digits_Forall, Hdig.
  - apply all_digits_Forall, Htd.
Qed.

(** For one date, different draws give different numbers: the draw can be
    read back from the number, so a day has at most a thousand numbers per
    tag. *)
Theorem distinct_draws_give_distinct_numbers tag y m d r1 r2 :
  0 <= r1 <= 999 -> 0 <= r2 <= 999 ->
  generateNumber tag y m d r1 = generateNumber tag y m d r2 ->
  r1 = r2.
Proof.
  intros H1 H2 Heq. unfold generateNumber in Heq.
  apply (f_equal s2l) in Heq. rewrite !s2l_l2s in Heq.
  do 4 apply app_inv_head in Heq.
  rewrite <- (proj2 (random_part r1 H1)), <- (proj2 (random_part r2 H2)), Heq.
  reflexivity.
Qed.

(** The two hooks of the Inquiry schema compose to the first: the number
    given before validation is never replaced before saving, a number that
    is already set is kept, and a document that is not new is left alone. *)
Theorem backup_hook_keeps_number isNew current y1 m1 d1 r1 y2 m2 d2 r2 :
  inquiryNumberAfterHooks isNew current y1 m1 d1 r1 y2 m2 d2 r2
  = assignNumber "INQ" isNew current y1 m1 d1 r1
  /\ (falsy_str current = false ->
      inquiryNumberAfterHooks isNew current y1 m1 d1 r1 y2 m2 d2 r2 = current)
  /\ (isNew = false ->
      inquiryNumberAfterHooks isNew current y1 m1 d1 r1 y2 m2 d2 r2 = current).
Proof.
  unfold inquiryNumberAfterHooks, assignNumber.
  destruct isNew; cbn [andb]; [|repeat split; reflexivity].
  destruct (falsy_str current) eqn:E.
  - split; [reflexivity|]. split; discriminate.
  - rewrite E. repeat split; reflexivity.
Qed.

(** ** CORS *)

Lemma s2l_append a b : s2l (a +:+ b) = s2l a ++ s2l b.
Proof.
  unfold s2l. induction a as [|c a IH]; simpl; [reflexivity|]. f_equal. exact IH.
Qed.

Lemma prefixb_app p : forall s, prefixb p (p ++ s) = true.
Proof.
  induction p as [|c p IH]; intros s; [reflexivity|].
  cbn [prefixb app]. rewrite Ascii.eqb_refl. apply IH.
Qed.

Lemma includesb_app p pre : forall post, includesb p (pre ++ p ++ post) = true.
Proof.
  induction pre as [|c pre IH]; intros post.
  - cbn [app]. destruct (p ++ post) eqn:E; cbn [includesb];
      rewrite <- E, prefixb_app; reflexivity.
  - cbn [app includesb]. rewrite IH. apply orb_true_r.
Qed.

(** The origin test looks for the three host fragments anywhere in the
    origin, not at the end of its host: every origin that contains
    [.onrender.com], [.netlify.app] or [.vercel.app] at any position is
    allowed, whatever [CLIENT_URL] is. *)
Theorem cors_allows_fragment_anywhere CLIENT_URL frag pre post :
  In frag [".onrender.com"; ".netlify.app"; ".vercel.app"] ->
  corsOrigin CLIENT_URL (Some (pre +:+ frag +:+ post)) = true.
Proof.
  intros Hfrag. unfold corsOrigin.
  destruct (String.eqb (pre +:+ frag +:+ post) EmptyString); [reflexivity|].
  destruct (existsb _ (allowedOrigins CLIENT_URL)); [reflexivity|].
  unfold includes. rewrite !s2l_append.
  destruct Hfrag as [<-|[<-|[<-|[]]]]; rewrite includesb_app;
    rewrite ?orb_true_r; reflexivity.
Qed.

(** ** Shaping: what a PDF never shows *)

Lemma or_str_nonempty v d : d <> EmptyString -> or_str v d <> EmptyString.
Proof.
  intros Hd. unfold or_str. destruct v as [s|]; [|exact Hd].
  destruct (String.eqb s EmptyString) eqn:E; [exact Hd|]. apply String.eqb_neq, E.
Qed.

Lemma or_num_nonzero v d : d <> 0 -> or_num v d <> 0.
Proof.
  intros Hd. unfold or_num. destruct v as [n|]; [|exact Hd].
  destruct (n =? 0) eqn:E; [exact Hd|]. apply Z.eqb_neq, E.
Qed.

(** Whatever the documents hold, the data handed to the PDF service has as
    many rows as the list it is taken from, no row with an empty material or
    thickness or with quantity zero (a stored zero is printed as one), and
    terms that are not empty. *)
Theorem pdf_rows_are_filled q inq t :
  length (pd_parts (pdfQuotationData q inq t))
  = (if (0 <? length (items q))%nat then length (items q) else length (parts inq))
  /\ Forall (fun row => material row <> EmptyString /\ thickness row <> EmptyString
                        /\ quantity row <> 0)
       (pd_parts (pdfQuotationData q inq t))
  /\ pd_terms (pdfQuotationData q inq t) <> EmptyString.
Proof.
  cbn [pdfQuotationData pd_parts pd_terms]. split; [|split].
  - destruct (0 <? length (items q))%nat; apply length_map.
  - destruct (0 <? length (items q))%nat; apply Forall_forall; intros row Hrow;
      apply list_elem_of_In, in_map_iff in Hrow as (x & <- & _);
      cbn [rowOfItem rowOfPart material thickness quantity];
      (split; [apply or_str_nonempty; discriminate|]);
      (split; [apply or_str_nonempty; discriminate|]);
      apply or_num_nonzero; discriminate.
  - apply or_str_nonempty. discriminate.
Qed.

(** ** Further facts about the interceptor *)

Lemma prefix_of_append a : forall b rest,
  s2l b = s2l a ++ rest -> String.prefix a b = true.
Proof.
  unfold s2l. induction a as [|c a IH]; intros b rest H; [destruct b; reflexivity|].
  destruct b as [|c' b]; [discriminate H|].
  simpl in H. injection H as -> H. simpl.
  destruct (ascii_dec c c) as [_|Hn]; [|congruence]. eapply IH, H.
Qed.

Lemma rmatch_lits_some n0 l : forall r s cp k x,
  rmatch false n0 (lits l r) s cp k = Some x -> exists rest, s = l ++ rest.
Proof.
  induction l as [|a l IH]; intros r s cp k x H; [exists s; reflexivity|].
  rewrite rmatch_lits in H. destruct s as [|c s]; [discriminate H|].
  cbn [cset_mem] in H. destruct (Ascii.eqb a c) eqn:E; [|discriminate H].
  apply Ascii.eqb_eq in E. subst c.
  destruct (IH _ _ _ _ _ H) as (rest & ->). exists rest. reflexivity.
Qed.

(** An anchored pattern matches at the start of the subject only. *)
Lemma rsearch_from_bol_short n0 r : forall s,
  (length s < n0)%nat -> rsearch_from false n0 (RSeq RBol r) s = None.
Proof.
  induction s as [|c s IH]; intros Hlen; cbn [rsearch_from]; unfold rmatch_here;
    rewrite rmatch_seq; cbn [rmatch];
    replace (length _ =? n0)%nat with false by (symmetry; apply Nat.eqb_neq; lia).
  - reflexivity.
  - apply IH. cbn [length] in Hlen. lia.
Qed.

Lemma re_quotation_path_eq :
  exists r, re_quotation_path = RSeq RBol (lits (s2l "/quotations/") r).
Proof. eexists. reflexivity. Qed.

(** The second disjunct of the interceptor's test adds nothing: a path that
    matches the anchored pattern starts with [/quotations/], so the test is
    [startsWith] alone. *)
Theorem interceptor_test_is_startsWith path :
  isQuotationPdfRequest path = String.prefix "/quotations/" path.
Proof.
  unfold isQuotationPdfRequest.
  destruct (String.prefix "/quotations/" path) eqn:Hp; [reflexivity|].
  cbn [orb]. apply bool_decide_eq_false. intros [m Hm].
  destruct re_quotation_path_eq as (r & Hre).
  unfold js_match, rsearch in Hm. rewrite Hre in Hm.
  assert (Hhere : rmatch_here false (length (s2l path))
                    (RSeq RBol (lits (s2l "/quotations/") r)) (s2l path) = Some m).
  { destruct (s2l path) as [|c s] eqn:Es; cbn [rsearch_from] in Hm.
    - destruct (rmatch_here _ _ _ []); [exact Hm | discriminate Hm].
    - destruct (rmatch_here _ _ _ (c :: s)) eqn:Eh; [exact Hm|].
      rewrite rsearch_from_bol_short in Hm by (cbn [length]; lia). discriminate Hm. }
  unfold rmatch_here in Hhere. rewrite rmatch_seq in Hhere. cbn [rmatch] in Hhere.
  rewrite Nat.eqb_refl in Hhere.
  apply rmatch_lits_some in Hhere as (rest & Hrest).
  rewrite (prefix_of_append _ _ _ Hrest) in Hp. discriminate Hp.
Qed.

Lemma substring_all s : String.substring 0 (String.length s) s = s.
Proof. induction s as [|c s IH]; simpl; [reflexivity|]. f_equal. exact IH. Qed.

Lemma strip_prefix_append f : strip_prefix ("/quotations/" +:+ f) = f.
Proof.
  unfold strip_prefix. simpl. rewrite Nat.sub_0_r. apply substring_all.
Qed.

Section MoreInterceptorFacts.

Variable ready : Z -> bool.
Variable headersSent : Z -> Z -> bool.
Variable interval_first : bool.

(** The interceptor on a path under [/quotations/]. *)
Lemma quotationPDFInterceptor_prefixed f t0 :
  quotationPDFInterceptor ready headersSent interval_first ("/quotations/" +:+ f) t0
  = (if ready t0 then Delegated f t0
     else Waited f (run_timers ready headersSent interval_first t0)).
Proof.
  unfold quotationPDFInterceptor.
  rewrite (prefix_of_append "/quotations/" ("/quotations/" +:+ f) (s2l f))
    by apply s2l_append.
  rewrite strip_prefix_append. reflexivity.
Qed.

(** The handler is given the rest of the path after [/quotations/], further
    slashes included: at once when it is registered, and otherwise whenever
    the wait hands the request over. *)
Theorem interceptor_hands_over_path_remainder f t0 :
  quotationPDFInterceptor ready headersSent interval_first ("/quotations/" +:+ f) t0
  = (if ready t0 then Delegated f t0
     else Waited f (run_timers ready headersSent interval_first t0)).
Proof.
  exact (quotationPDFInterceptor_prefixed f t0).
Qed.

(** The ticks from [a] on: none finds the handler, or the first that does
    calls it. *)
Lemma fold_ticks_first t0 n : forall a st,
  interval_live st = true ->
  (Forall (fun k => ready (t0 + 100 * Z.of_nat k) = false) (seq a n)
   /\ fold_left (fun st d => checkHandler ready (t0 + d) st)
        (map (fun k => 100 * Z.of_nat k) (seq a n)) st = st)
  \/ (exists k, (a <= k < a + n)%nat
      /\ ready (t0 + 100 * Z.of_nat k) = true
      /\ (forall j, (a <= j < k)%nat -> ready (t0 + 100 * Z.of_nat j) = false)
      /\ fold_left (fun st d => checkHandler ready (t0 + d) st)
           (map (fun k => 100 * Z.of_nat k) (seq a n)) st
         = {| handler_called := Some (t0 + 100 * Z.of_nat k); interval_live := false;
              timeout_sent := timeout_sent st |}).
Proof.
  induction n as [|n IH]; intros a st Hlive; cbn [seq map fold_left].
  - left. split; [constructor | reflexivity].
  - unfold checkHandler at 2 4. rewrite Hlive. cbn [andb].
    destruct (ready (t0 + 100 * Z.of_nat a)) eqn:Hr.
    + right. exists a. split; [lia|]. split; [exact Hr|]. split; [intros j Hj; lia|].
      apply fold_checkHandler_cleared. reflexivity.
    + destruct (IH (S a) st Hlive) as [[Hall Hst]|(k & Hk & Hrk & Hfirst & Hst)].
      * left. split; [constructor; assumption | exact Hst].
      * right. exists k. split; [lia|]. split; [exact Hrk|]. split; [|exact Hst].
        intros j Hj. destruct (Nat.eq_dec j a) as [->|Hne]; [exact Hr|].
        apply Hfirst. lia.
Qed.

(** Polling latency: when the handler is registered at time [r] during the
    first 4900 ms of the wait, it is called at the first tick at or after
    [r], less than 100 ms later. *)
Theorem handler_called_within_100ms_of_registration f t0 r :
  (forall t, ready t = true <-> r <= t) ->
  t0 < r <= t0 + 4900 ->
  exists st tc,
    quotationPDFInterceptor ready headersSent interval_first ("/quotations/" +:+ f) t0
    = Waited f st
    /\ handler_called st = Some tc
    /\ r <= tc < r + 100.
Proof.
  intros Hready Hr.
  assert (Hr0 : ready t0 = false).
  { destruct (ready t0) eqn:E; [|reflexivity]. apply Hready in E. lia. }
  rewrite quotationPDFInterceptor_prefixed, Hr0.
  unfold run_timers, tick_offsets.
  set (st0 := {| handler_called := None; interval_live := true; timeout_sent := None |}).
  destruct (fold_ticks_first t0 49%nat 1%nat st0 eq_refl)
    as [[Hall _]|(k & Hk & Hrk & Hfirst & ->)].
  - exfalso. rewrite Forall_forall in Hall.
    assert (H49 : ready (t0 + 100 * Z.of_nat 49) = false).
    { apply Hall, elem_of_seq. lia. }
    assert (Ht : ready (t0 + 100 * Z.of_nat 49) = true) by (apply Hready; lia).
    congruence.
  - eexists. exists (t0 + 100 * Z.of_nat k). split; [reflexivity|].
    split.
    + destruct interval_first; reflexivity.
    + apply Hready in Hrk. split; [exact Hrk|].
      destruct (Nat.eq_dec k 1%nat) as [->|Hk1]; [lia|].
      assert (Hprev : ready (t0 + 100 * Z.of_nat (k - 1)) = false)
        by (apply Hfirst; lia).
      destruct (Z_le_gt_dec r (t0 + 100 * Z.of_nat (k - 1))) as [Hle|Hgt].
      * apply Hready in Hle. congruence.
      * lia.
Qed.

(** The timeout is never cancelled: whenever the handler has not sent its
    headers 5000 ms after the arrival, the 503 is sent, also when the handler
    was called during the wait and is still at work. *)
Theorem timeout_fires_over_slow_handler f t0 :
  ready t0 = false ->
  (forall tc, headersSent tc (t0 + 5000) = false) ->
  exists st,
    quotationPDFInterceptor ready headersSent interval_first ("/quotations/" +:+ f) t0
    = Waited f st
    /\ timeout_sent st = Some (t0 + 5000, serviceUnavailable).
Proof.
  intros Hr0 Hslow.
  rewrite quotationPDFInterceptor_prefixed, Hr0.
  eexists. split; [reflexivity|].
  unfold run_timers, onTimeout. cbn [timeout_sent].
  destruct (handler_called _) as [tc|]; [rewrite Hslow|]; reflexivity.
Qed.

End MoreInterceptorFacts.

(** ** Concrete runs of the further facts *)

Lemma request_changes_only_the_pointer_witness :
  NoDup (map q_id (quotations (world1 (Some generated_name))))
  /\ map status (quotations (snd (handle1 generated_name None (world1 (Some generated_name)))))
     = [sent]
  /\ map quotationPdf
       (quotations (snd (handle1 generated_name None (world1 (Some generated_name)))))
     = [Some current_name].
Proof.
  assert (Hnd : NoDup (map q_id (quotations (world1 (Some generated_name))))).
  { apply NoDup_singleton. }
  split; [exact Hnd|]. split; [|vm_compute; reflexivity].
  destruct (request_changes_only_the_pointer stampedPdfService hex24 generated_name None
              (world1 (Some generated_name)) Hnd) as (_ & _ & _ & Hs).
  unfold handle1. rewrite Hs. reflexivity.
Defined.


Lemma missing_inquiry_is_not_found_witness :
  existsSync orphan_world (quotationPath uploaded_name) = false
  /\ exists evs,
       handle1 uploaded_name None orphan_world
       = (Json 404 [("success", JBool false);
                    ("message", JStr "Inquiry not found for quotation");
                    ("quotationId", JStr (q_id orphan_quotation));
                    ("inquiryId", JStr (inquiryId orphan_quotation))],
          add_log evs orphan_world)
       /\ Forall (fun e => is_generate e = false /\ is_save e = false) evs.
Proof.
  split; [vm_compute; reflexivity|].
  apply (missing_inquiry_is_not_found stampedPdfService hex24 uploaded_name None
           orphan_world orphan_quotation).
  - vm_compute; reflexivity.
  - vm_compute; reflexivity.
  - vm_compute; reflexivity.
  - constructor; [|constructor]. intros H. vm_compute in H. discriminate H.
Defined.

Lemma builder_rejection_is_reported_witness :
  existsSync (world1 (Some uploaded_name)) (quotationPath uploaded_name) = false
  /\ exists evs,
       handleQuotationPDF failingPdfService hex24 uploaded_name None
         (world1 (Some uploaded_name))
       = (Json 500 [("success", JBool false);
                    ("message", JStr "Error regenerating PDF");
                    ("error", JStr "Failed to generate PDF")],
          add_log (evs ++ [EvGenerate (i_id inquiry1)]) (world1 (Some uploaded_name)))
       /\ Forall (fun e => is_generate e = false /\ is_save e = false) evs.
Proof.
  split; [vm_compute; reflexivity|].
  apply (builder_rejection_is_reported failingPdfService hex24 uploaded_name None
           (world1 (Some uploaded_name)) (quotation1 (Some uploaded_name)) inquiry1).
  - vm_compute; reflexivity.
  - vm_compute; reflexivity.
  - vm_compute; reflexivity.
  - reflexivity.
Defined.

Lemma rebuilt_name_is_served_from_store_witness :
  existsSync (world1 (Some generated_name)) (quotationPath generated_name) = false
  /\ handle1 current_name (Some "true")
       (snd (handle1 generated_name None (world1 (Some generated_name))))
     = (SendFile "attachment" current_name (quotationPath current_name),
        snd (handle1 generated_name None (world1 (Some generated_name)))).
Proof.
  split; [vm_compute; reflexivity|].
  apply (rebuilt_name_is_served_from_store stampedPdfService hex24 generated_name None
           (world1 (Some generated_name)) "inline").
  - exact stampedPdfService_reports_store_path.
  - vm_compute; reflexivity.
  - vm_compute; reflexivity.
Defined.

Lemma disposition_follows_download_flag_witness :
  fst (handle1 uploaded_name (Some "1") world_with_file)
  = SendFile "attachment" uploaded_name (quotationPath uploaded_name)
  /\ (("attachment" = "attachment" /\ (Some "1" = Some "true" \/ Some "1" = Some "1"))
      \/ ("attachment" = "inline" /\ Some "1" <> Some "true" /\ Some "1" <> Some "1")).
Proof.
  assert (H : fst (handle1 uploaded_name (Some "1") world_with_file)
              = SendFile "attachment" uploaded_name (quotationPath uploaded_name))
    by (vm_compute; reflexivity).
  split; [exact H|].
  exact (disposition_follows_download_flag stampedPdfService hex24 uploaded_name (Some "1")
           world_with_file _ _ _ H).
Defined.

Lemma legacy_route_agrees_on_exact_match_witness :
  exactMatch generated_name (world1 (Some generated_name))
  = Ok (Some (quotation1 (Some generated_name)))
  /\ fst (legacyRoute stampedPdfService generated_name (world1 (Some generated_name)))
     = SendFile "inline" current_name (quotationPath current_name)
  /\ quotations (snd (legacyRoute stampedPdfService generated_name
                        (world1 (Some generated_name))))
     = quotations (snd (handle1 generated_name None (world1 (Some generated_name)))).
Proof.
  assert (He : exactMatch generated_name (world1 (Some generated_name))
               = Ok (Some (quotation1 (Some generated_name)))) by (vm_compute; reflexivity).
  split; [exact He|].
  destruct (legacy_route_agrees_on_exact_match stampedPdfService hex24 generated_name
              (world1 (Some generated_name)) (quotation1 (Some generated_name))
              current_name (quotationPath current_name)
              (snd (handle1 generated_name None (world1 (Some generated_name))))
              He ltac:(vm_compute; reflexivity) ltac:(vm_compute; reflexivity)
              ltac:(vm_compute; reflexivity)) as (H1 & _ & H3 & _).
  split; assumption.
Defined.


Lemma fuzzy_match_resolves_case_variants_witness :
  map to_lower (s2l uploaded_name) = map to_lower (s2l capital_name)
  /\ exactMatch capital_name (world1 (Some uploaded_name)) = Ok None
  /\ exists q' p',
       partialMatch capital_name (world1 (Some uploaded_name)) = Ok (Some q')
       /\ q' ∈ quotations (world1 (Some uploaded_name))
       /\ quotationPdf q' = Some p'
       /\ substring_ci (s2l capital_name) (s2l p') = true.
Proof.
  split; [vm_compute; reflexivity|]. split; [vm_compute; reflexivity|].
  apply (fuzzy_match_resolves_case_variants capital_name (world1 (Some uploaded_name))
           (quotation1 (Some uploaded_name)) uploaded_name).
  - apply list_elem_of_singleton. reflexivity.
  - reflexivity.
  - vm_compute; reflexivity.
Defined.

Lemma inquiry_number_strategy_resolves_witness :
  exactMatch generated_name (world1 (Some uploaded_name)) = Ok None
  /\ inquiryNumberSearch generated_name (world1 (Some uploaded_name))
     = Ok (Some (quotation1 (Some uploaded_name))).
Proof.
  split; [vm_compute; reflexivity|].
  apply (inquiry_number_strategy_resolves generated_name (world1 (Some uploaded_name))
           (s2l "251031789") (s2l "1700000003000") inquiry1).
  - reflexivity.
  - discriminate.
  - reflexivity.
  - discriminate.
  - reflexivity.
  - vm_compute; reflexivity.
  - vm_compute; reflexivity.
Defined.

Lemma generated_timestamp_ignores_reference_witness :
  generatedTimestampSearch generated_name (world1 None)
  = generatedTimestampSearch foreign_name (world1 None)
  /\ generatedTimestampSearch foreign_name (world1 None) = Ok (Some (quotation1 None)).
Proof.
  split; [|vm_compute; reflexivity].
  apply (generated_timestamp_ignores_reference generated_name foreign_name
           (s2l "INQ251031789") (s2l "INQ000000000") (s2l "1700000003000"));
    solve [reflexivity | discriminate].
Defined.

Lemma upload_timestamp_ignores_suffix_witness :
  timestampSearch uploaded_name (world1 None)
  = timestampSearch "quotation-1700000000000-0000.pdf" (world1 None).
Proof.
  apply (upload_timestamp_ignores_suffix uploaded_name "quotation-1700000000000-0000.pdf"
           (s2l "7421.pdf") (s2l "0000.pdf") (s2l "1700000000000"));
    solve [reflexivity | discriminate].
Defined.

Lemma generated_number_format_witness :
  generateNumber "INQ" 2025 9 31 789 = "INQ251031789"
  /\ exists ds,
       s2l (generateNumber "INQ" 2025 9 31 789) = s2l "INQ" ++ ds
       /\ length ds = 9%nat /\ all_digits ds = true.
Proof.
  split; [vm_compute; reflexivity|].
  apply (generated_number_format "INQ" 2025 9 31 789). unfold date_parts_ok. lia.
Defined.

Lemma generated_inquiry_number_is_recognised_witness :
  js_match re_inquiry generated_name
  = Some [(2%nat, s2l "1700000003000");
          (1%nat, s2l (generateNumber "INQ" 2025 9 31 789))].
Proof.
  apply (generated_inquiry_number_is_recognised 2025 9 31 789 (s2l "1700000003000")
           generated_name).
  - unfold date_parts_ok. lia.
  - discriminate.
  - reflexivity.
  - vm_compute; reflexivity.
Defined.

Lemma distinct_draws_give_distinct_numbers_witness :
  generateNumber "QUO" 2025 9 31 7 = "QUO251031007" /\ 7 = 7.
Proof.
  split; [vm_compute; reflexivity|].
  apply (distinct_draws_give_distinct_numbers "QUO" 2025 9 31 7 7); [lia | lia | reflexivity].
Defined.

Lemma backup_hook_keeps_number_witness :
  inquiryNumberAfterHooks true None 2025 9 31 789 2025 9 31 12 = Some "INQ251031789"
  /\ inquiryNumberAfterHooks true (Some "INQ250101001") 2025 9 31 789 2025 9 31 12
     = Some "INQ250101001".
Proof.
  split.
  - rewrite (proj1 (backup_hook_keeps_number true None 2025 9 31 789 2025 9 31 12)).
    vm_compute; reflexivity.
  - apply (proj1 (proj2 (backup_hook_keeps_number true (Some "INQ250101001")
                           2025 9 31 789 2025 9 31 12))).
    reflexivity.
Defined.

Lemma cors_allows_fragment_anywhere_witness :
  corsOrigin None (Some "https://evil.example/.vercel.app") = true
  /\ corsOrigin None (Some "https://evil.example") = false.
Proof.
  split; [|vm_compute; reflexivity].
  apply (cors_allows_fragment_anywhere None ".vercel.app" "https://evil.example/"
           EmptyString).
  right. right. left. reflexivity.
Defined.

Lemma handler_called_within_100ms_of_registration_witness :
  exists st tc,
    quotationPDFInterceptor ready_from_250 (fun _ _ => false) true
      "/quotations/quotation-1.pdf" 0
    = Waited "quotation-1.pdf" st
    /\ handler_called st = Some tc
    /\ 250 <= tc < 250 + 100.
Proof.
  apply (handler_called_within_100ms_of_registration ready_from_250 (fun _ _ => false) true
           "quotation-1.pdf" 0 250).
  - intros t. unfold ready_from_250. apply Z.leb_le.
  - lia.
Defined.

Lemma timeout_fires_over_slow_handler_witness :
  handler_called (run_timers ready_from_250 (fun _ _ => false) true 0) = Some 300
  /\ exists st,
       quotationPDFInterceptor ready_from_250 (fun _ _ => false) true
         "/quotations/quotation-1.pdf" 0
       = Waited "quotation-1.pdf" st
       /\ timeout_sent st = Some (0 + 5000, serviceUnavailable).
Proof.
  split; [vm_compute; reflexivity|].
  apply (timeout_fires_over_slow_handler ready_from_250 (fun _ _ => false) true
           "quotation-1.pdf" 0).
  - reflexivity.
  - intros tc. reflexivity.
Defined.
